(** * skycoin [src/visor/db.go]: corruption check, index rebuild and quarantine

    A shallow embedding of the database integrity layer of the visor
    package: the fault tracker [corruptedBlocks], [CheckDatabase],
    [rebuildCorruptDB], [ResetCorruptDB], [handleCorruptDB],
    [moveCorruptDB], [makeCorruptDBPath] and [shaFileID].

    Go values are modelled as follows.
    - [uint64] is [N]; where the source does arithmetic on it the
      wrap-around modulo 2^64 is written out.
    - the [error] interface is the inductive [error]; a Go [error] value
      that may be nil is [option error].
    - a [map[uint64]struct{}] is a [gmap N ()].
    - file contents are [list byte]; paths are [string].
    - the file system is a [gmap string (list byte)]. *)

From Stdlib Require Import ZArith NArith List Lia.
From Stdlib.Strings Require Import Ascii String Byte.
From stdpp Require Import base option list gmap strings.
Import ListNotations.

Local Open Scope string_scope.
Local Open Scope N_scope.

(** ** Errors *)

(** The dynamic types of [error] values that the type switches of the
    source tell apart, plus the error values of the Go runtime and of bolt
    that the model produces.  [errorString] is what [errors.New] and
    [fmt.Errorf] build. *)
Inductive error : Type :=
| errorString (msg : string)
| ErrMissingSignature (msg : string)      (* blockdb.ErrMissingSignature *)
| ErrHistoryDBCorrupted (msg : string)    (* historydb.ErrHistoryDBCorrupted *)
| ErrCorruptDB (e : error)                (* visor.ErrCorruptDB{error} *)
| PathError (op path msg : string)        (* *os.PathError *)
| LinkError (op old new msg : string)     (* *os.LinkError *)
| ErrDatabaseNotOpen                      (* bolt.ErrDatabaseNotOpen *)
| ErrDatabaseReadOnly.                    (* bolt.ErrDatabaseReadOnly *)

(** [err.Error()]; [ErrCorruptDB] embeds an error and inherits its method. *)
Fixpoint Error (e : error) : string :=
  match e with
  | errorString m => m
  | ErrMissingSignature m => m
  | ErrHistoryDBCorrupted m => m
  | ErrCorruptDB e' => Error e'
  | PathError op path m => op ++ " " ++ path ++ ": " ++ m
  | LinkError op old new m => op ++ " " ++ old ++ " " ++ new ++ ": " ++ m
  | ErrDatabaseNotOpen => "database not open"
  | ErrDatabaseReadOnly => "database is in read-only mode"
  end.

(** [fmt.Errorf(prefix + "%v", err)] *)
Definition Errorf (prefix : string) (e : error) : error :=
  errorString (prefix ++ Error e).

(** ** The fault tracker *)

Definition uint64 := N.
Definition uint64_modulus : N := 2 ^ 64.

(** [corruptedBlocks]: the mutex serialises the calls, so a tracker is the
    map it guards. *)
Record corruptedBlocks : Type := mkCorruptedBlocks {
  v : gmap N ()
}.

Definition newCorruptedBlocks : corruptedBlocks :=
  {| v := ∅ |}.

(** [cb.v[seq] = struct{}{}] *)
Definition Store (cb : corruptedBlocks) (seq : uint64) : corruptedBlocks :=
  {| v := <[seq := ()]> (v cb) |}.

(** [BlockSeqs] ranges over the map; Go leaves the iteration order of a map
    unspecified, so the method is a relation: every order of the keys is a
    possible result.  [BlockSeqs_canonical] is one of them. *)
Definition BlockSeqs_canonical (cb : corruptedBlocks) : list uint64 :=
  (map_to_list (v cb)).*1.

Definition BlockSeqs (cb : corruptedBlocks) (seqs : list uint64) : Prop :=
  seqs ≡ₚ BlockSeqs_canonical cb.

(** A finite sequence of [Store] calls on a tracker. *)
Definition StoreAll (cb : corruptedBlocks) (calls : list uint64) : corruptedBlocks :=
  foldl Store cb calls.

(** ** [crypto/sha1]

    SHA-1 as FIPS 180-4 defines it; 32-bit words are [N] reduced modulo
    2^32 after every addition and rotation. *)
Module sha1.

Definition w32 (x : N) : N := x mod 2 ^ 32.

Definition rotl (k x : N) : N :=
  w32 (N.lor (N.shiftl x k) (N.shiftr x (32 - k))).

Definition add32 (x y : N) : N := w32 (x + y).

Definition not32 (x : N) : N := N.lxor x (2 ^ 32 - 1).

(** The message followed by 0x80, zero bytes up to 56 modulo 64, and the
    bit length as a big-endian 64-bit integer. *)
Definition be_bytes (k : nat) (x : N) : list N :=
  map (λ i, N.shiftr x (8 * N.of_nat i) mod 256) (rev (seq 0 k)).

Definition pad (msg : list N) : list N :=
  let len := N.of_nat (length msg) in
  let zeros := N.to_nat ((119 - len mod 64) mod 64) in
  msg ++ [128] ++ repeat 0 zeros ++ be_bytes 8 (8 * len mod 2 ^ 64).

Fixpoint be_word (bs : list N) (acc : N) : N :=
  match bs with
  | [] => acc
  | b :: bs' => be_word bs' (N.lor (N.shiftl acc 8) b)
  end.

(** The 16 big-endian words of a 64-byte block. *)
Fixpoint words (k : nat) (bs : list N) : list N :=
  match k with
  | O => []
  | S k' => be_word (take 4 bs) 0 :: words k' (drop 4 bs)
  end.

Definition f (t : nat) (b c d : N) : N :=
  if (t <? 20)%nat then N.lor (N.land b c) (N.land (not32 b) d)
  else if (t <? 40)%nat then N.lxor (N.lxor b c) d
  else if (t <? 60)%nat then N.lor (N.lor (N.land b c) (N.land b d)) (N.land c d)
  else N.lxor (N.lxor b c) d.

Definition K (t : nat) : N :=
  if (t <? 20)%nat then 0x5A827999
  else if (t <? 40)%nat then 0x6ED9EBA1
  else if (t <? 60)%nat then 0x8F1BBCDC
  else 0xCA62C1D6.

Record digest : Type := mkDigest { h0 : N; h1 : N; h2 : N; h3 : N; h4 : N }.

Definition init : digest :=
  mkDigest 0x67452301 0xEFCDAB89 0x98BADCFE 0x10325476 0xC3D2E1F0.

(** Rounds [t .. t + n - 1]; [win] holds the message schedule
    [W t .. W (t + 15)]. *)
Fixpoint rounds (n t : nat) (win : list N) (s : digest) : digest :=
  match n with
  | O => s
  | S n' =>
      let wt := nth 0 win 0 in
      let next :=
        rotl 1 (N.lxor (N.lxor (N.lxor (nth 13 win 0) (nth 8 win 0)) (nth 2 win 0)) wt) in
      let tmp :=
        add32 (add32 (add32 (add32 (rotl 5 (h0 s)) (f t (h1 s) (h2 s) (h3 s))) (h4 s)) (K t)) wt in
      rounds n' (S t) (drop 1 win ++ [next])
        (mkDigest tmp (h0 s) (rotl 30 (h1 s)) (h2 s) (h3 s))
  end.

Definition block (s : digest) (bs : list N) : digest :=
  let r := rounds 80 0 (words 16 bs) s in
  mkDigest (add32 (h0 s) (h0 r)) (add32 (h1 s) (h1 r)) (add32 (h2 s) (h2 r))
           (add32 (h3 s) (h3 r)) (add32 (h4 s) (h4 r)).

Fixpoint blocks (n : nat) (s : digest) (bs : list N) : digest :=
  match n with
  | O => s
  | S n' => blocks n' (block s (take 64 bs)) (drop 64 bs)
  end.

(** [h.Sum(nil)] after the bytes [msg] were written to [h]: 20 bytes. *)
Definition Sum (msg : list byte) : list byte :=
  let p := pad (map Byte.to_N msg) in
  let s := blocks (length p / 64) init p in
  map (λ x, default x00 (Byte.of_N x))
    (be_bytes 4 (h0 s) ++ be_bytes 4 (h1 s) ++ be_bytes 4 (h2 s) ++
     be_bytes 4 (h3 s) ++ be_bytes 4 (h4 s)).

End sha1.

(** ** [encoding/base64] *)
Module base64.

Definition encodeStd : string :=
  "ABCDEFGHIJKLMNOPQRSTUVWXYZabcdefghijklmnopqrstuvwxyz0123456789+/".
Definition encodeURL : string :=
  "ABCDEFGHIJKLMNOPQRSTUVWXYZabcdefghijklmnopqrstuvwxyz0123456789-_".

Definition char (alphabet : string) (i : N) : string :=
  match String.get (N.to_nat i) alphabet with
  | Some c => String c EmptyString
  | None => EmptyString
  end.

(** The four 6-bit values of a group of three bytes [a], [b], [c]. *)
Definition sextet1 (a : N) : N := N.shiftr a 2.
Definition sextet2 (a b : N) : N := N.lor (N.shiftl (N.land a 3) 4) (N.shiftr b 4).
Definition sextet3 (b c : N) : N := N.lor (N.shiftl (N.land b 15) 2) (N.shiftr c 6).
Definition sextet4 (c : N) : N := N.land c 63.

(** Encoding without padding: 3 bytes give 4 characters; a last group of
    2 bytes gives 3 and of 1 byte gives 2, the missing bits being zero. *)
Fixpoint encode (alphabet : string) (src : list N) : string :=
  match src with
  | a :: b :: c :: rest =>
      char alphabet (sextet1 a) ++ char alphabet (sextet2 a b) ++
      char alphabet (sextet3 b c) ++ char alphabet (sextet4 c) ++
      encode alphabet rest
  | [a; b] =>
      char alphabet (sextet1 a) ++ char alphabet (sextet2 a b) ++
      char alphabet (sextet3 b 0)
  | [a] =>
      char alphabet (sextet1 a) ++ char alphabet (sextet2 a 0)
  | [] => EmptyString
  end.

(** The character of a 6-bit value in the standard alphabet. *)
Definition symbol (i : N) : ascii :=
  default "000"%char (String.get (N.to_nat i) encodeStd).

(** A property of every number below [n], decided by running through
    them. *)
Definition all_below (n : nat) (P : N → bool) : bool :=
  forallb P (map N.of_nat (seq 0 n)).

(** [base64.RawStdEncoding.EncodeToString]: the standard alphabet of
    RFC 4648, no padding. *)
Definition RawStdEncoding_EncodeToString (src : list byte) : string :=
  encode encodeStd (map Byte.to_N src).

(** [base64.RawURLEncoding.EncodeToString]: the URL and filename safe
    alphabet of RFC 4648, no padding.  The source does not call it; the
    specification names it. *)
Definition RawURLEncoding_EncodeToString (src : list byte) : string :=
  encode encodeURL (map Byte.to_N src).

End base64.

(** ** [path/filepath] on Unix *)
Module filepath.

Definition Separator : ascii := "/"%char.

Definition is_sep (c : ascii) : bool := Ascii.eqb c Separator.

Fixpoint has_sep (s : string) : bool :=
  match s with
  | EmptyString => false
  | String c r => is_sep c || has_sep r
  end.

(** [Split]: the path up to and including its last separator, and what
    follows it. *)
Fixpoint Split (path : string) : string * string :=
  match path with
  | EmptyString => (EmptyString, EmptyString)
  | String c r =>
      if has_sep r then let '(d, f) := Split r in (String c d, f)
      else if is_sep c then (String c EmptyString, r)
      else (EmptyString, String c r)
  end.

(** The elements between the separators of a path. *)
Fixpoint elements (path : string) : list string :=
  match path with
  | EmptyString => [EmptyString]
  | String c r =>
      if is_sep c then EmptyString :: elements r
      else match elements r with
           | e :: es => String c e :: es
           | [] => [String c EmptyString]
           end
  end.

(** One element of [Clean]; [out] holds the elements kept so far, last
    first. *)
Definition clean_step (rooted : bool) (out : list string) (e : string) : list string :=
  if String.eqb e "" then out
  else if String.eqb e "." then out
  else if String.eqb e ".." then
    match out with
    | top :: out' =>
        if String.eqb top ".." then e :: out else out'
    | [] => if rooted then [] else [e]
    end
  else e :: out.

Fixpoint join_sep (es : list string) : string :=
  match es with
  | [] => EmptyString
  | [e] => e
  | e :: es' => e ++ String Separator (join_sep es')
  end.

(** [Clean]: the shortest path equivalent to [path] by purely lexical
    processing. *)
Definition Clean (path : string) : string :=
  match path with
  | EmptyString => "."
  | String c _ =>
      let rooted := is_sep c in
      let out := rev (foldl (clean_step rooted) [] (elements path)) in
      if rooted then String Separator (join_sep out)
      else match out with
           | [] => "."
           | _ => join_sep out
           end
  end.

(** [strings.Join(elem, "/")] *)
Fixpoint strings_Join (elem : list string) : string :=
  match elem with
  | [] => EmptyString
  | [e] => e
  | e :: es => e ++ String Separator (strings_Join es)
  end.

(** [Join]: the elements from the first non-empty one on, joined by the
    separator and cleaned; the empty string when there is none. *)
Fixpoint Join (elem : list string) : string :=
  match elem with
  | [] => EmptyString
  | e :: es => if String.eqb e "" then Join es else Clean (strings_Join elem)
  end.

(** [Dir]: the cleaned directory part of [Split]. *)
Definition Dir (path : string) : string := Clean (fst (Split path)).

(** An element that [Clean] keeps where it is: not empty, not [.] and
    not [..]. *)
Definition plain (e : string) : bool :=
  negb (String.eqb e "") && negb (String.eqb e ".") && negb (String.eqb e "..").

(** A name whose elements after the first are all plain: it has no two
    adjacent separators, does not end in one, and no [.] or [..] after a
    separator. *)
Definition plain_tail (name : string) : bool :=
  forallb plain (tail (elements name)).

(** What [Clean] puts before the last elements of a path that starts
    with the directory [dir] (from [Split]: empty, or ending in a
    separator). *)
Definition cleaned_prefix (dir : string) : string :=
  match dir with
  | EmptyString => EmptyString
  | String c _ =>
      (if is_sep c then String Separator EmptyString else EmptyString) ++
      foldr (λ e acc, e ++ String Separator acc) EmptyString
        (rev (foldl (clean_step (is_sep c)) [] (elements dir)))
  end.

End filepath.

(** ** Collaborators

    [dbutil], [blockdb], [historydb], [coin], [cipher] and bolt are other
    packages; the functions of this file reach them only through the calls
    below, so they are taken as an interface.  [T] is the content of a store
    as a bolt transaction sees it. *)

(** The object behind a [*dbutil.DB]. *)
Record DB (T : Type) : Type := mkDB {
  db_path : string;
  db_readOnly : bool;
  db_opened : bool;
  db_data : T
}.
Arguments mkDB {T} _ _ _ _.
Arguments db_path {T} _.
Arguments db_readOnly {T} _.
Arguments db_opened {T} _.
Arguments db_data {T} _.

(** [coin.SignedBlock] *)
Record SignedBlock (B S : Type) : Type := mkSignedBlock {
  Block : B;
  Sig : S
}.
Arguments mkSignedBlock {B S} _ _.
Arguments Block {B S} _.
Arguments Sig {B S} _.

(** A [chan struct{}] that the function only polls ([select] with a
    [default]): whether a receive is ready at the k-th poll made on it.  A
    closed channel is ready from some poll on. *)
Definition chan := nat → bool.

Abbreviation files := (gmap string (list byte)).

Class Collaborators : Type := {
  tx_data : Type;
  coin_Block : Type;
  cipher_Sig : Type;
  cipher_PubKey : Type;
  Blockchain : Type;                     (* *visor.Blockchain *)
  IndexesMap : Type;                     (* *historydb.IndexesMap *)
  BlocksBkt : string;                    (* blockdb.BlocksBkt *)
  dbutil_Exists : tx_data → string → bool;
  (* NewBlockchain(db, BlockchainConfig{Pubkey: pubkey}) *)
  NewBlockchain : DB tx_data → cipher_PubKey → (Blockchain + error) * DB tx_data;
  bc_VerifySignature : Blockchain → SignedBlock coin_Block cipher_Sig → option error;
  (* bc.WalkChain(n, verifyFunc, quit): the closure verifyFunc is its code
     and the map it captures; quit comes with the polls made on it so far;
     the result is the error and the polls made when the walk returns *)
  bc_WalkChain :
    Blockchain → DB tx_data → nat →
    (tx_data → SignedBlock coin_Block cipher_Sig → IndexesMap → option error * IndexesMap) →
    IndexesMap →
    chan → nat → option error * nat;
  bc_HeadSeq : Blockchain → tx_data → uint64 * bool * option error;
  (* a nil block pointer is [None] *)
  bc_GetSignedBlockBySeq :
    Blockchain → tx_data → uint64 → option (SignedBlock coin_Block cipher_Sig) * option error;
  historydb_NewIndexesMap : IndexesMap;
  history_Verify :
    tx_data → SignedBlock coin_Block cipher_Sig → IndexesMap → option error * IndexesMap;
  history_Erase : tx_data → tx_data * option error;
  history_ParseBlock : tx_data → coin_Block → tx_data * option error;
  (* bolt.Open(path, mode, &bolt.Options{Timeout: timeout, ReadOnly: readOnly}),
     the timeout in milliseconds *)
  bolt_Open : string → N → N → bool → files → (DB tx_data + error) * files;
  (* tx.Commit(): the bytes of the store file after the commit of this
     content, from the bytes the file had *)
  bolt_pages : tx_data → list byte → list byte
}.

(** [BlockchainVerifyTheadNum] *)
Definition BlockchainVerifyTheadNum : nat := 4.

(** ** The world and the monad of the model *)

(** How a call ends: it returns, it panics, or the model ran out of fuel
    before it did either. *)
Inductive outcome (A : Type) : Type :=
| Returns (a : A)
| Panics
| OutOfFuel.
Arguments Returns {A} _.
Arguments Panics {A}.
Arguments OutOfFuel {A}.

Section Model.

Context `{C : Collaborators}.

(** What the functions do to their environment, in the order they do it. *)
Inductive event : Type :=
| EvView (name : string)
| EvNewBlockchain
| EvWalkChain (n : nat)
| EvUpdate (name : string)
| EvCommit
| EvRollback
| EvErase
| EvHeadSeq
| EvPollQuit (k : nat)
| EvGetSignedBlockBySeq (seq : uint64)
| EvParseBlock (b : coin_Block)
| EvIsReadOnly
| EvPath
| EvClose (path : string)
| EvOsOpen (path : string)
| EvCopy (path : string)
| EvFileClose (path : string)
| EvOsRename (oldpath newpath : string)
| EvBoltOpen (path : string) (readOnly : bool).

(** A [*dbutil.DB] is a location of the heap.  [io_fault] says which
    operations fail for a reason outside the model (EIO, EACCES, EXDEV,
    ...), and with which error. *)
Record World : Type := mkWorld {
  heap : gmap nat (DB tx_data);
  fs : files;
  dirs : gset string;
  io_fault : event → option error;
  polls : nat;
  trace : list event
}.

Definition M (A : Type) : Type := World → outcome (A * World).

Definition ret {A} (a : A) : M A := λ w, Returns (a, w).

Definition bind {A B} (m : M A) (k : A → M B) : M B :=
  λ w, match m w with
       | Returns (a, w') => k a w'
       | Panics => Panics
       | OutOfFuel => OutOfFuel
       end.

Definition panic {A} : M A := λ _, Panics.
Definition out_of_fuel {A} : M A := λ _, OutOfFuel.

Definition get_world : M World := λ w, Returns (w, w).

Definition emit (e : event) : M () :=
  λ w, Returns ((), mkWorld (heap w) (fs w) (dirs w) (io_fault w) (polls w) (trace w ++ [e])%list).

(** The world after the events [evs], and after [n] more polls. *)
Definition record (evs : list event) (w : World) : World :=
  mkWorld (heap w) (fs w) (dirs w) (io_fault w) (polls w) (trace w ++ evs)%list.

Definition polled (n : nat) (w : World) : World :=
  mkWorld (heap w) (fs w) (dirs w) (io_fault w) (polls w + n)%nat (trace w).

Definition with_heap (h : gmap nat (DB tx_data)) (w : World) : World :=
  mkWorld h (fs w) (dirs w) (io_fault w) (polls w) (trace w).

Definition with_fs (f : files) (w : World) : World :=
  mkWorld (heap w) f (dirs w) (io_fault w) (polls w) (trace w).

(** What a run shows from outside: the value returned and the trace. *)
Definition observe {A} (o : outcome (A * World)) : option (A * list event) :=
  match o with
  | Returns (a, w) => Some (a, trace w)
  | _ => None
  end.

(** The content of the store behind a handle after a run. *)
Definition stored {A} (db : nat) (o : outcome (A * World)) : option tx_data :=
  match o with
  | Returns (_, w) => db_data <$> heap w !! db
  | _ => None
  end.

Definition set_heap (h : gmap nat (DB tx_data)) : M () :=
  λ w, Returns ((), mkWorld h (fs w) (dirs w) (io_fault w) (polls w) (trace w)).

Definition set_fs (f : files) : M () :=
  λ w, Returns ((), mkWorld (heap w) f (dirs w) (io_fault w) (polls w) (trace w)).

Definition set_polls (n : nat) : M () :=
  λ w, Returns ((), mkWorld (heap w) (fs w) (dirs w) (io_fault w) n (trace w)).

End Model.

Declare Scope go_scope.
Delimit Scope go_scope with go.
Notation "'let*' p := m 'in' k" := (bind m (λ x, match x with p => k end))
  (at level 10, p pattern, m at level 100, k at level 200) : go_scope.
Notation "m ;;; k" := (bind m (λ _, k))
  (at level 100, right associativity) : go_scope.
Local Open Scope go_scope.

Section Store.

Context `{C : Collaborators}.

(** Dereference a [*dbutil.DB]; nil and dangling pointers panic. *)
Definition deref (p : nat) : M (DB tx_data) :=
  let* w := get_world in
  match heap w !! p with
  | Some o => ret o
  | None => panic
  end.

Definition store (p : nat) (o : DB tx_data) : M () :=
  let* w := get_world in set_heap (<[p := o]> (heap w)).

(** [<-quit] in a [select] with a [default] *)
Definition poll (quit : chan) : M bool :=
  let* w := get_world in
  emit (EvPollQuit (polls w)) ;;;
  set_polls (S (polls w)) ;;;
  ret (quit (polls w)).

(** ** [dbutil.DB]

    The storage engine is another package.  Its handle methods follow the
    specification's interface, with the failures of bolt: a transaction
    cannot begin on a closed handle ([ErrDatabaseNotOpen]), nor a write
    transaction on a read-only one ([ErrDatabaseReadOnly]). *)

(** Modelled from the spec: [Handle.View(name, fn) -> error] of
    [dbutil.DB], which is not in this file.  It runs [fn] in a read
    transaction and returns its error; when the transaction cannot begin
    [fn] does not run.  The value [fn] assigns to the variables it captures
    is [Some] when it ran. *)
Definition db_View {A} (p : nat) (name : string)
    (fn : tx_data → M (A * option error)) : M (option A * option error) :=
  emit (EvView name) ;;;
  let* o := deref p in
  if db_opened o then
    let* (a, err) := fn (db_data o) in
    ret (Some a, err)
  else ret (None, Some ErrDatabaseNotOpen).

(** Modelled from the spec: [Handle.Update(name, fn) -> error] of
    [dbutil.DB], which is not in this file.  It runs [fn] in one write
    transaction, commits when [fn] returns nil and rolls back when it
    returns an error; a commit can fail on I/O, and then nothing is
    written.  A commit writes the pages of the transaction to the file of
    the handle, so the bytes under the path of the handle change with the
    content behind it; a rollback writes nothing. *)
Definition db_Update (p : nat) (name : string)
    (fn : tx_data → M (tx_data * option error)) : M (option error) :=
  emit (EvUpdate name) ;;;
  let* o := deref p in
  if negb (db_opened o) then ret (Some ErrDatabaseNotOpen)
  else if db_readOnly o then ret (Some ErrDatabaseReadOnly)
  else
    let* (t', err) := fn (db_data o) in
    match err with
    | Some e => emit EvRollback ;;; ret (Some e)
    | None =>
        let* w := get_world in
        match io_fault w EvCommit with
        | Some e => emit EvRollback ;;; ret (Some e)
        | None =>
            emit EvCommit ;;;
            set_fs (alter (bolt_pages t') (db_path o) (fs w)) ;;;
            store p (mkDB (db_path o) (db_readOnly o) (db_opened o) t') ;;;
            ret None
        end
    end.

(** ** [rebuildCorruptDB] *)

(** The [for] loop of the closure, from the test [i <= headSeq] on; [i++]
    wraps at 2^64. *)
Fixpoint rebuild_loop (fuel : nat) (bc : Blockchain) (quit : chan)
    (headSeq i : uint64) (tx : tx_data) : M (tx_data * option error) :=
  match fuel with
  | O => out_of_fuel
  | S fuel' =>
      if i <=? headSeq then
        let* signaled := poll quit in
        if signaled : bool then ret (tx, None)
        else
          emit (EvGetSignedBlockBySeq i) ;;;
          let '(b, err) := bc_GetSignedBlockBySeq bc tx i in
          match err with
          | Some e => ret (tx, Some e)
          | None =>
              match b with
              | None => panic                       (* b.Block on a nil b *)
              | Some sb =>
                  emit (EvParseBlock (Block sb)) ;;;
                  let '(tx', err) := history_ParseBlock tx (Block sb) in
                  match err with
                  | Some e => ret (tx', Some e)
                  | None =>
                      rebuild_loop fuel' bc quit headSeq ((i + 1) mod uint64_modulus) tx'
                  end
              end
          end
      else ret (tx, None)
  end.

(** The closure passed to [db.Update]. *)
Definition rebuild_tx (fuel : nat) (bc : Blockchain) (quit : chan)
    (tx : tx_data) : M (tx_data * option error) :=
  emit EvErase ;;;
  let '(tx1, err) := history_Erase tx in
  match err with
  | Some e => ret (tx1, Some e)
  | None =>
      emit EvHeadSeq ;;;
      let '(headSeq, ok, err) := bc_HeadSeq bc tx1 in
      match err with
      | Some e => ret (tx1, Some e)
      | None =>
          if negb ok then ret (tx1, Some (errorString "head block does not exist"))
          else rebuild_loop fuel bc quit headSeq 0 tx1
      end
  end.

Definition rebuildCorruptDB (fuel : nat) (db : nat) (bc : Blockchain) (quit : chan)
    : M (option error) :=
  db_Update db "Rebuild history db" (rebuild_tx fuel bc quit).

End Store.

Section Check.

Context `{C : Collaborators}.

(** [verifyFunc]: the signature first, then the history index.  The
    closure captures [indexesMap], which [history.Verify] updates; the model
    passes the map in and out. *)
Definition verifyFunc (bc : Blockchain)
    (tx : tx_data) (b : SignedBlock coin_Block cipher_Sig) (indexesMap : IndexesMap)
    : option error * IndexesMap :=
  match bc_VerifySignature bc b with
  | Some err => (Some err, indexesMap)
  | None => history_Verify tx b indexesMap
  end.

(** [go func() { defer wg.Done(); errC <- body() }(); wg.Wait()]: when
    the body returns, [wg.Wait] returns after the goroutine has run to its
    end, and the buffer of [errC] holds the value it sent.  A body that
    panics ends the program: the outcome is [Panics].  [Await] below gives
    the interleavings of the two goroutines, with what the caller can
    still do between the deferred [wg.Done] of a panicking goroutine and
    the end of the program. *)
Definition go_and_wait {A} (body : M A) : M (list A) :=
  let* r := body in ret [r].

Definition CheckDatabase (fuel : nat) (db : nat) (pubkey : cipher_PubKey) (quit : chan)
    : M (option error) :=
  (* the error of db.View is dropped; blocksBktExist starts as false *)
  let* (r, _) :=
    db_View db "CheckDatabase" (λ tx, ret (dbutil_Exists tx BlocksBkt, @None error)) in
  let blocksBktExist := default false r in
  if negb blocksBktExist then ret None
  else
    emit EvNewBlockchain ;;;
    let* o := deref db in
    let '(res, o') := NewBlockchain o pubkey in
    store db o' ;;;
    match res with
    | inr err => ret (Some err)
    | inl bc =>
        emit (EvWalkChain BlockchainVerifyTheadNum) ;;;
        let* w := get_world in
        let indexesMap := historydb_NewIndexesMap in
        let '(err, n) :=
          bc_WalkChain bc o' BlockchainVerifyTheadNum (verifyFunc bc) indexesMap
            quit (polls w) in
        set_polls n ;;;
        match err with
        | None => ret None
        | Some (ErrMissingSignature m) => ret (Some (ErrCorruptDB (ErrMissingSignature m)))
        | Some (ErrHistoryDBCorrupted _) =>
            let* errC := go_and_wait (rebuildCorruptDB fuel db bc quit) in
            match errC with
            | err :: _ => ret err
            | [] => ret None
            end
        | Some err => ret (Some err)
        end
    end.

(** The world when the walk has returned: the handle as [NewBlockchain]
    left it, [n] polls made, and the three calls in the trace. *)
Definition after_walk (db : nat) (o' : DB tx_data) (n : nat) (w : World) : World :=
  mkWorld (<[db := o']> (heap w)) (fs w) (dirs w) (io_fault w) n
    (trace w ++ [EvView "CheckDatabase"; EvNewBlockchain;
                 EvWalkChain BlockchainVerifyTheadNum]).

End Check.

(** ** The goroutine of [CheckDatabase]

    The two goroutines of the repair branch as a transition system: the
    caller waits on [wg] and then does its [select] on [errC]; the spawned
    goroutine runs the rebuild, sends its error on [errC] (capacity 1) and
    then, by its [defer], calls [wg.Done].  When the rebuild panics the
    goroutine sends nothing; its deferred [wg.Done] still runs, and then
    the runtime ends the program, after which neither goroutine moves.
    Between the two the caller can move.  A rebuild that does not
    terminate gives the spawned goroutine no further step. *)
Module Await.
Section Await.

Context `{C : Collaborators}.

Inductive caller : Type :=
| AtWait                       (* wg.Wait() *)
| AtSelect                     (* select { case err := <-errC: ...; default: ... } *)
| Returned (err : option error).

Inductive spawned : Type :=
| AtRebuild                    (* err := rebuildCorruptDB(...) *)
| AtSend (err : option error)  (* errC <- err *)
| AtDone                       (* deferred wg.Done() *)
| Exited
| Panicking                    (* deferred wg.Done(), run by the panic *)
| Dying                        (* the deferred call has run; the runtime reports the panic *)
| Crashed.                     (* the panic has ended the program *)

Record state : Type := mkState {
  world : World;
  wg : nat;
  errC : list (option error);
  main : caller;
  worker : spawned
}.

(** After [errC := make(chan error, 1)], [wg.Add(1)] and the [go]
    statement. *)
Definition initial (w : World) : state := mkState w 1 [] AtWait AtRebuild.

(** The caller moves only while the program runs. *)
Inductive step (rebuild : M (option error)) : state → state → Prop :=
| step_rebuild w n ch m err w' :
    rebuild w = Returns (err, w') →
    step rebuild (mkState w n ch m AtRebuild) (mkState w' n ch m (AtSend err))
| step_send w n ch m err :
    (length ch < 1)%nat →
    step rebuild (mkState w n ch m (AtSend err)) (mkState w n (ch ++ [err])%list m AtDone)
| step_done w n ch m :
    step rebuild (mkState w n ch m AtDone) (mkState w (pred n) ch m Exited)
| step_panic w n ch m :
    rebuild w = Panics →
    step rebuild (mkState w n ch m AtRebuild) (mkState w n ch m Panicking)
| step_panic_done w n ch m :
    step rebuild (mkState w n ch m Panicking) (mkState w (pred n) ch m Dying)
| step_crash w n ch m :
    step rebuild (mkState w n ch m Dying) (mkState w n ch m Crashed)
| step_wait w ch g :
    g ≠ Crashed →
    step rebuild (mkState w 0 ch AtWait g) (mkState w 0 ch AtSelect g)
| step_select_recv w n err ch g :
    g ≠ Crashed →
    step rebuild (mkState w n (err :: ch) AtSelect g) (mkState w n ch (Returned err) g)
| step_select_default w n g :
    g ≠ Crashed →
    step rebuild (mkState w n [] AtSelect g) (mkState w n [] (Returned None) g).

(** What holds in every state reached from [initial w0]. *)
Definition inv (rebuild : M (option error)) (w0 : World) (s : state) : Prop :=
  match worker s with
  | AtRebuild => world s = w0 ∧ wg s = 1%nat ∧ errC s = [] ∧ main s = AtWait
  | AtSend err =>
      rebuild w0 = Returns (err, world s) ∧ wg s = 1%nat ∧ errC s = [] ∧ main s = AtWait
  | AtDone =>
      ∃ err, rebuild w0 = Returns (err, world s) ∧
             wg s = 1%nat ∧ errC s = [err] ∧ main s = AtWait
  | Exited =>
      ∃ err, rebuild w0 = Returns (err, world s) ∧ wg s = 0%nat ∧
             (errC s = [err] ∧ (main s = AtWait ∨ main s = AtSelect) ∨
              errC s = [] ∧ main s = Returned err)
  | Panicking =>
      rebuild w0 = Panics ∧ world s = w0 ∧ wg s = 1%nat ∧ errC s = [] ∧ main s = AtWait
  | Dying | Crashed =>
      rebuild w0 = Panics ∧ world s = w0 ∧ wg s = 0%nat ∧ errC s = [] ∧
      (main s = AtWait ∨ main s = AtSelect ∨ main s = Returned None)
  end.

End Await.
End Await.

Section Quarantine.

Context `{C : Collaborators}.

(** ** [os] and [io]

    A file is the bytes at its path.  An operation fails when the world
    injects a fault for it, when its file does not exist, and, for a
    rename, when the directory of the new path does not exist.  A
    directory can be opened, and fails when it is read. *)
Definition ENOENT : string := "no such file or directory".
Definition EISDIR : string := "is a directory".

(** [*os.File], open for reading: a file, as the bytes a reader gets from
    it, or a directory. *)
Inductive os_File : Type :=
| Regular (bytes : list byte)
| Directory.

(** [os.Open] *)
Definition os_Open (name : string) : M (option os_File * option error) :=
  emit (EvOsOpen name) ;;;
  let* w := get_world in
  match io_fault w (EvOsOpen name) with
  | Some e => ret (None, Some e)
  | None =>
      match fs w !! name with
      | Some bytes => ret (Some (Regular bytes), None)
      | None =>
          if decide (name ∈ dirs w) then ret (Some Directory, None)
          else ret (None, Some (PathError "open" name ENOENT))
      end
  end.

(** [io.Copy(h, fi)] into a hash: the bytes written to [h] so far. *)
Definition io_Copy (name : string) (h : list byte) (fi : os_File)
    : M (list byte * option error) :=
  emit (EvCopy name) ;;;
  let* w := get_world in
  match io_fault w (EvCopy name) with
  | Some e => ret (h, Some e)
  | None =>
      match fi with
      | Regular bytes => ret ((h ++ bytes)%list, None)
      | Directory => ret (h, Some (PathError "read" name EISDIR))
      end
  end.

Definition os_Rename (oldpath newpath : string) : M (option error) :=
  emit (EvOsRename oldpath newpath) ;;;
  let* w := get_world in
  match io_fault w (EvOsRename oldpath newpath) with
  | Some e => ret (Some e)
  | None =>
      match fs w !! oldpath with
      | None => ret (Some (LinkError "rename" oldpath newpath ENOENT))
      | Some bytes =>
          if decide (filepath.Dir newpath ∈ dirs w) then
            set_fs (<[newpath := bytes]> (delete oldpath (fs w))) ;;;
            ret None
          else ret (Some (LinkError "rename" oldpath newpath ENOENT))
      end
  end.

(** Modelled from the spec: [Handle.Close() -> error] of [dbutil.DB], which
    is not in this file.  The handle is closed whether or not the call
    reports an error; a closed handle stays closed and reports nothing. *)
Definition db_Close (p : nat) : M (option error) :=
  let* o := deref p in
  emit (EvClose (db_path o)) ;;;
  if db_opened o then
    store p (mkDB (db_path o) (db_readOnly o) false (db_data o)) ;;;
    let* w := get_world in
    ret (io_fault w (EvClose (db_path o)))
  else ret None.

(** Modelled from the spec: [Handle.IsReadOnly() -> bool] and
    [Handle.Path() -> string] of [dbutil.DB]. *)
Definition db_IsReadOnly (p : nat) : M bool :=
  emit EvIsReadOnly ;;; let* o := deref p in ret (db_readOnly o).

Definition db_Path (p : nat) : M string :=
  emit EvPath ;;; let* o := deref p in ret (db_path o).

(** ** [shaFileID], [makeCorruptDBPath], [moveCorruptDB] *)

Definition shaFileID (dbPath : string) : M (string * option error) :=
  let* (fi, err) := os_Open dbPath in
  match err, fi with
  | Some e, _ => ret ("", Some e)
  | None, None => panic
  | None, Some fi =>
      let* r :=
        (let h : list byte := [] in                    (* sha1.New() *)
         let* (h, err) := io_Copy dbPath h fi in
         match err with
         | Some e => ret ("", Some e)
         | None =>
             let sum := sha1.Sum h in
             let encodedSum := base64.RawStdEncoding_EncodeToString (take 8 sum) in
             ret (encodedSum, None)
         end) in
      emit (EvFileClose dbPath) ;;;                    (* defer fi.Close() *)
      ret r
  end.

Definition makeCorruptDBPath (dbPath : string) : M (string * option error) :=
  let* (dbFileHash, err) := shaFileID dbPath in
  match err with
  | Some e => ret ("", Some e)
  | None =>
      let '(dbDir, dbFile) := filepath.Split dbPath in
      let newDBFile := dbFile ++ ".corrupt." ++ dbFileHash in
      let newDBPath := filepath.Join [dbDir; newDBFile] in
      ret (newDBPath, None)
  end.

Definition moveCorruptDB (dbPath : string) : M (string * option error) :=
  let* (newDBPath, err) := makeCorruptDBPath dbPath in
  match err with
  | Some e => ret ("", Some e)
  | None =>
      let* err := os_Rename dbPath newDBPath in
      match err with
      | Some e => ret ("", Some e)
      | None => ret (newDBPath, None)
      end
  end.

(** What [shaFileID] returns for a file with these bytes, and the path
    [makeCorruptDBPath] builds from it. *)
Definition fingerprint (bytes : list byte) : string :=
  base64.RawStdEncoding_EncodeToString (take 8 (sha1.Sum bytes)).

Definition corruptDBPath (dbPath : string) (bytes : list byte) : string :=
  filepath.Join [(filepath.Split dbPath).1;
                 (filepath.Split dbPath).2 ++ ".corrupt." ++ fingerprint bytes].

(** ** [OpenDB], [handleCorruptDB], [ResetCorruptDB] *)

(** The file mode 0600 (octal) and the timeout [500 * time.Millisecond],
    in milliseconds. *)
Definition perm_0600 : N := 6 * 64.
Definition timeout_500ms : N := 500.

(** [dbutil.WrapDB] allocates the handle it returns. *)
Definition OpenDB (dbFile : string) (readOnly : bool) : M (option nat * option error) :=
  emit (EvBoltOpen dbFile readOnly) ;;;
  let* w := get_world in
  let '(res, fs') := bolt_Open dbFile perm_0600 timeout_500ms readOnly (fs w) in
  set_fs fs' ;;;
  match res with
  | inr err => ret (None, Some (Errorf "Open boltdb failed, " err))
  | inl o =>
      let p := fresh (dom (heap w)) in
      store p o ;;;
      ret (Some p, None)
  end.

Definition handleCorruptDB (db : nat) : M (option nat * option error) :=
  let* dbReadOnly := db_IsReadOnly db in
  let* dbPath := db_Path db in
  let* err := db_Close db in
  match err with
  | Some e => ret (None, Some (Errorf "Failed to close db: " e))
  | None =>
      let* (corruptDBPath, err) := moveCorruptDB dbPath in
      match err with
      | Some e => ret (None, Some (Errorf "Failed to copy corrupted db: " e))
      | None => OpenDB dbPath dbReadOnly
      end
  end.

Definition ResetCorruptDB (fuel : nat) (db : nat) (pubkey : cipher_PubKey) (quit : chan)
    : M (option nat * option error) :=
  let* err := CheckDatabase fuel db pubkey quit in
  match err with
  | None => ret (Some db, None)
  | Some (ErrCorruptDB _) => handleCorruptDB db
  | Some e => ret (None, Some e)
  end.

End Quarantine.

(** ** The rebuild as the specification words it

    Erase the index, read the head, then go through the sequence numbers
    [0 .. head] as a list in increasing order. *)
Section RebuildSpec.

Context `{C : Collaborators}.

(** [lo; lo + 1; ...], [n] numbers. *)
Fixpoint uint_range (lo : uint64) (n : nat) : list uint64 :=
  match n with
  | O => []
  | S n' => lo :: uint_range (lo + 1) n'
  end.

Fixpoint rebuild_each (bc : Blockchain) (quit : chan) (seqs : list uint64) (tx : tx_data)
    : M (tx_data * option error) :=
  match seqs with
  | [] => ret (tx, None)
  | i :: rest =>
      let* signaled := poll quit in
      if signaled : bool then ret (tx, None)
      else
        emit (EvGetSignedBlockBySeq i) ;;;
        match bc_GetSignedBlockBySeq bc tx i with
        | (_, Some e) => ret (tx, Some e)
        | (None, None) => panic
        | (Some sb, None) =>
            emit (EvParseBlock (Block sb)) ;;;
            match history_ParseBlock tx (Block sb) with
            | (tx', Some e) => ret (tx', Some e)
            | (tx', None) => rebuild_each bc quit rest tx'
            end
        end
  end.

Definition rebuild_tx_spec (bc : Blockchain) (quit : chan) (tx : tx_data)
    : M (tx_data * option error) :=
  emit EvErase ;;;
  match history_Erase tx with
  | (tx1, Some e) => ret (tx1, Some e)
  | (tx1, None) =>
      emit EvHeadSeq ;;;
      match bc_HeadSeq bc tx1 with
      | (_, _, Some e) => ret (tx1, Some e)
      | (_, false, None) => ret (tx1, Some (errorString "head block does not exist"))
      | (headSeq, true, None) =>
          rebuild_each bc quit (uint_range 0 (S (N.to_nat headSeq))) tx1
      end
  end.

Definition rebuild_spec (db : nat) (bc : Blockchain) (quit : chan) : M (option error) :=
  db_Update db "Rebuild history db" (rebuild_tx_spec bc quit).

(** Feeding the blocks at [seqs] to the index builder when every fetch and
    every parse succeeds: the index reached and the events of the steps,
    the first poll being poll number [k]. *)
Fixpoint replay (bc : Blockchain) (k : nat) (seqs : list uint64) (tx : tx_data)
    : option (tx_data * list event) :=
  match seqs with
  | [] => Some (tx, [])
  | i :: rest =>
      match bc_GetSignedBlockBySeq bc tx i with
      | (Some sb, None) =>
          match history_ParseBlock tx (Block sb) with
          | (tx', None) =>
              match replay bc (S k) rest tx' with
              | Some (txn, evs) =>
                  Some (txn, EvPollQuit k :: EvGetSignedBlockBySeq i
                               :: EvParseBlock (Block sb) :: evs)
              | None => None
              end
          | _ => None
          end
      | _ => None
      end
  end.

End RebuildSpec.

(** ** A small chain, to run the model on

    The store holds the chain as the list of its blocks, each with the
    signature the store has for it (a block is a number; its signature is
    missing, does not verify, or verifies), and the history index as the
    list of the blocks parsed into it.  The blocks bucket of these stores
    exists from the first block on: a store with the bucket and no block is
    not among them. *)
Module Toy.

Inductive signature : Type :=
| NoSig                        (* no signature stored for the block *)
| BadSig                       (* a signature that does not verify *)
| GoodSig.

Record store : Type := mkStore {
  chain : list (SignedBlock N signature);
  index : list N
}.

Definition has_blocks_bkt (t : store) : bool :=
  match chain t with
  | [] => false
  | _ :: _ => true
  end.

(** [VerifySignature] reports a signature that does not verify with a
    plain error, not with a type of its own. *)
Definition verify_sig (b : SignedBlock N signature) : option error :=
  match Sig b with
  | GoodSig => None
  | _ => Some (errorString "Recovered pubkey does not match pubkey")
  end.

Definition verify_index (t : store) (b : SignedBlock N signature) : option error :=
  if bool_decide (Block b ∈ index t) then None
  else Some (ErrHistoryDBCorrupted "transaction not in historydb").

(** The error of a walk that was interrupted. *)
Definition ErrVerifyStopped : error := errorString "database verification stopped".

(** One worker over the blocks that are left: the blocks in order, a poll
    of [quit] before each.  The walk itself reports a block that has no
    signature, with [blockdb.ErrMissingSignature]; the closure sees the
    blocks that have one.  An interrupted walk returns
    [ErrVerifyStopped].  The base case is the end of the chain:
    [CheckDatabase] starts the walk on a store that has the blocks bucket,
    and so a block. *)
Fixpoint walk (vf : store → SignedBlock N signature → () → option error * ())
    (t : store) (quit : chan) (k : nat) (bs : list (SignedBlock N signature))
    : option error * nat :=
  match bs with
  | [] => (None, k)
  | b :: rest =>
      if quit k then (Some ErrVerifyStopped, S k)
      else match Sig b with
           | NoSig => (Some (ErrMissingSignature "signature not found"), S k)
           | _ =>
               match vf t b () with
               | (Some e, _) => (Some e, S k)
               | (None, _) => walk vf t quit (S k) rest
               end
           end
  end.

Definition head (t : store) : uint64 * bool * option error :=
  match chain t with
  | [] => (0, false, None)
  | _ :: bs => (N.of_nat (length bs), true, None)
  end.

Definition byte_of (n : N) : byte := default x00 (Byte.of_N (n mod 256)).

(** The file of a store after a commit: its blocks, then its index. *)
Definition pages (t : store) : list byte :=
  map byte_of (map Block (chain t) ++ index t).

#[export] Instance collaborators : Collaborators := {|
  tx_data := store;
  coin_Block := N;
  cipher_Sig := signature;
  cipher_PubKey := ();
  Blockchain := ();
  IndexesMap := ();
  BlocksBkt := "blocks";
  dbutil_Exists := λ t name, has_blocks_bkt t && String.eqb name "blocks";
  NewBlockchain := λ o _, (inl (), o);
  bc_VerifySignature := λ _ b, verify_sig b;
  bc_WalkChain := λ _ o _ vf _ quit k, walk vf (db_data o) quit k (chain (db_data o));
  bc_HeadSeq := λ _ t, head t;
  bc_GetSignedBlockBySeq := λ _ t i, (chain t !! N.to_nat i, None);
  historydb_NewIndexesMap := ();
  history_Verify := λ t b im, (verify_index t b, im);
  history_Erase := λ t, (mkStore (chain t) [], None);
  history_ParseBlock := λ t b, (mkStore (chain t) (index t ++ [b]), None);
  bolt_Open := λ path _ _ ro f,
    match f !! path with
    | None =>
        if ro : bool then (inr (PathError "open" path ENOENT), f)
        else (inl (mkDB path ro true (mkStore [] [])), <[path := []]> f)
    | Some _ => (inr (errorString "invalid database"), f)
    end;
  bolt_pages := λ t _, pages t
|}.

Definition blk (n : N) : SignedBlock N signature := mkSignedBlock n GoodSig.

(** A world with one open store at [/data/data.db], no fault, and a
    channel nobody signals. *)
Definition world (t : store) (bytes : list byte) : World :=
  mkWorld {[ 1%nat := mkDB "/data/data.db" false true t ]}
          {[ "/data/data.db" := bytes ]}
          {[ "/data" ]}
          (λ _, None) 0 [].

(** The same with the handle already closed. *)
Definition closed_world (t : store) (bytes : list byte) : World :=
  mkWorld {[ 1%nat := mkDB "/data/data.db" false false t ]}
          {[ "/data/data.db" := bytes ]}
          {[ "/data" ]}
          (λ _, None) 0 [].

(** The closure of the read transaction of [CheckDatabase]. *)
Definition exists_blocks_bkt (tx : store) : M (bool * option error) :=
  ret (dbutil_Exists tx BlocksBkt, None).

Definition never : chan := λ _, false.

(** Signaled from poll [k] on, as a channel closed at that time. *)
Definition closed_from (k : nat) : chan := λ j, (k <=? j)%nat.

Definition three_blocks : list (SignedBlock N signature) := [blk 10; blk 11; blk 12].

Definition healthy : store := mkStore three_blocks [10; 11; 12].
Definition broken_index : store := mkStore three_blocks [10; 12].
(** The second block has no signature. *)
Definition bad_signature : store :=
  mkStore [blk 10; mkSignedBlock 11 NoSig; blk 12] [10; 11; 12].
(** The second block has a signature that does not verify. *)
Definition invalid_signature : store :=
  mkStore [blk 10; mkSignedBlock 11 BadSig; blk 12] [10; 11; 12].
Definition pristine : store := mkStore [] [].

End Toy.

(** * Frames, a sparse chain and cleaned paths *)

(** The files after a run. *)
Definition files_after `{C : Collaborators} {A} (o : outcome (A * World)) : option files :=
  match o with
  | Returns (_, w) => Some (fs w)
  | _ => None
  end.

Section Frames.

Context `{C : Collaborators}.

(** A run from [w] to [w'] that only adds to the trace and polls: no
    handle and no file has changed. *)
Definition quiet (w w' : World) : Prop :=
  heap w' = heap w ∧ fs w' = fs w ∧ dirs w' = dirs w ∧ io_fault w' = io_fault w ∧
  ∃ evs, trace w' = (trace w ++ evs)%list.

(** A run that may also have changed the handle [db] and the bytes of the
    file under the path of that handle, and nothing else: no other handle,
    no other file, and no file is created or removed. *)
Definition touches_only (db : nat) (w w' : World) : Prop :=
  (∀ p, p ≠ db → heap w' !! p = heap w !! p) ∧
  dom (fs w') = dom (fs w) ∧
  (∀ o', heap w' !! db = Some o' → ∀ f, f ≠ db_path o' → fs w' !! f = fs w !! f) ∧
  dirs w' = dirs w ∧ io_fault w' = io_fault w ∧
  ∃ evs, trace w' = (trace w ++ evs)%list.

End Frames.

(** ** A sparse chain, to run the model on

    The store holds the head it reports, the sequence numbers at which no
    block is found and those at which the read fails; every other sequence
    number has a block, which is its number.  The key is valid or not. *)
Module Sparse.

Record store : Type := mkStore {
  head : uint64;
  missing : list uint64;
  unreadable : list uint64;
  index : list N
}.

#[export] Instance collaborators : Collaborators := {|
  tx_data := store;
  coin_Block := N;
  cipher_Sig := ();
  cipher_PubKey := bool;
  Blockchain := ();
  IndexesMap := ();
  BlocksBkt := "blocks";
  dbutil_Exists := λ _ _, true;
  NewBlockchain := λ o pubkey,
    if pubkey : bool then (inl (), o) else (inr (errorString "invalid public key"), o);
  bc_VerifySignature := λ _ _, None;
  bc_WalkChain := λ _ _ _ _ _ _ k,
    (Some (ErrHistoryDBCorrupted "transaction not in historydb"), k);
  bc_HeadSeq := λ _ t, (head t, true, None);
  bc_GetSignedBlockBySeq := λ _ t i,
    if bool_decide (i ∈ missing t) then (None, None)
    else if bool_decide (i ∈ unreadable t) then (None, Some (errorString "read failed"))
    else (Some (mkSignedBlock i ()), None);
  historydb_NewIndexesMap := ();
  history_Verify := λ _ _ im, (None, im);
  history_Erase := λ t, (mkStore (head t) (missing t) (unreadable t) [], None);
  history_ParseBlock := λ t b,
    (mkStore (head t) (missing t) (unreadable t) (b :: index t), None);
  bolt_Open := λ _ _ _ _ f, (inr (errorString "timeout"), f);
  bolt_pages := λ t bytes, (bytes ++ [Toy.byte_of (N.of_nat (length (index t)))])%list
|}.

(** A world with one open store at [/data/data.db] and no fault. *)
Definition world (t : store) : World :=
  mkWorld {[ 1%nat := mkDB "/data/data.db" false true t ]}
          {[ "/data/data.db" := [] ]}
          {[ "/data" ]}
          (λ _, None) 0 [].

End Sparse.

(** The elements [Clean] has kept so far, last first: plain elements
    above the [..] elements that lead the path, and no [..] at all in a
    rooted path. *)
Definition settled (rooted : bool) (out : list string) : Prop :=
  ∃ (ps : list string) (n : nat),
    out = (ps ++ repeat ".." n)%list ∧
    Forall (λ e, filepath.plain e = true ∧ filepath.has_sep e = false) ps ∧
    (rooted = true → n = 0%nat).

(** * Theorems *)

Section FaultTracker.

Implicit Types (cb : corruptedBlocks) (calls seqs : list uint64).

Lemma BlockSeqs_canonical_dom cb x :
  x ∈ BlockSeqs_canonical cb ↔ x ∈ dom (v cb).
Proof.
  unfold BlockSeqs_canonical. rewrite elem_of_dom, list_elem_of_fmap. split.
  - intros [[k []] [-> Hin]]. apply elem_of_map_to_list in Hin. eauto.
  - intros [[] Hx]. exists (x, ()). split; [done|]. by apply elem_of_map_to_list.
Qed.

Lemma BlockSeqs_canonical_NoDup cb : NoDup (BlockSeqs_canonical cb).
Proof. apply NoDup_fst_map_to_list. Qed.

Lemma StoreAll_dom calls : ∀ cb x,
  x ∈ dom (v (StoreAll cb calls)) ↔ x ∈ dom (v cb) ∨ x ∈ calls.
Proof.
  induction calls as [|c calls IH]; intros cb x; simpl.
  - rewrite elem_of_nil. tauto.
  - rewrite IH. simpl. rewrite dom_insert, elem_of_union, elem_of_singleton, elem_of_cons.
    tauto.
Qed.

Lemma BlockSeqs_total cb : BlockSeqs cb (BlockSeqs_canonical cb).
Proof. unfold BlockSeqs. reflexivity. Qed.

Lemma Store_duplicate cb s : s ∈ dom (v cb) → Store cb s = cb.
Proof.
  destruct cb as [m]. unfold Store. simpl. intros Hin. f_equal.
  apply elem_of_dom in Hin as [[] Hm]. by apply insert_id.
Qed.

End FaultTracker.

(** C10.  After any finite sequence of [Store] calls on a fresh tracker,
    every result of [BlockSeqs] lists exactly the distinct stored sequence
    numbers, each once and in some order; storing again a number that was
    already stored leaves the tracker as it was; with no call the result is
    empty; and [BlockSeqs] always has a result. *)
Theorem C10_BlockSeqs_distinct_stored (calls seqs : list uint64)
    (Hret : BlockSeqs (StoreAll newCorruptedBlocks calls) seqs) :
  NoDup seqs ∧
  (∀ x, x ∈ seqs ↔ x ∈ calls) ∧
  (∀ s, s ∈ calls →
     Store (StoreAll newCorruptedBlocks calls) s = StoreAll newCorruptedBlocks calls) ∧
  (calls = [] → seqs = []) ∧
  (∃ seqs', BlockSeqs (StoreAll newCorruptedBlocks calls) seqs').
Proof.
  unfold BlockSeqs in Hret.
  assert (Hmem : ∀ x, x ∈ seqs ↔ x ∈ calls).
  { intros x. rewrite Hret, BlockSeqs_canonical_dom, StoreAll_dom. simpl.
    rewrite dom_empty, elem_of_empty. tauto. }
  repeat split.
  - rewrite Hret. apply BlockSeqs_canonical_NoDup.
  - apply Hmem.
  - apply Hmem.
  - intros s Hs. apply Store_duplicate, StoreAll_dom. by right.
  - intros ->. apply Permutation_nil_r. rewrite Hret. reflexivity.
  - eexists. apply BlockSeqs_total.
Qed.

Lemma C10_witness :
  BlockSeqs (StoreAll newCorruptedBlocks [7; 2; 7; 2; 5]) [5; 7; 2] ∧
  NoDup [5; 7; 2] ∧ (∀ x, x ∈ [5; 7; 2] ↔ x ∈ [7; 2; 7; 2; 5]).
Proof.
  assert (H : BlockSeqs (StoreAll newCorruptedBlocks [7; 2; 7; 2; 5]) [5; 7; 2]).
  { unfold BlockSeqs.
    replace (BlockSeqs_canonical (StoreAll newCorruptedBlocks [7; 2; 7; 2; 5]))
      with [2; 5; 7] by (vm_compute; reflexivity).
    symmetry. apply (Permutation_cons_app [5; 7] [] 2). apply Permutation_refl. }
  split; [exact H|].
  pose proof (C10_BlockSeqs_distinct_stored [7; 2; 7; 2; 5] [5; 7; 2] H) as (Hn & Hm & _).
  split; assumption.
Defined.

(** Unfold the monad and the primitive operations, and project the fields
    of the worlds they build. *)
Ltac run_go :=
  repeat progress
    (unfold db_Update, db_View, deref, store, poll, get_world, emit,
       set_heap, set_fs, set_polls, ret, bind, panic, out_of_fuel;
     cbn [heap fs dirs io_fault polls trace]).

Ltac unfold_world :=
  repeat progress
    (unfold with_heap, with_fs, polled, record;
     cbn [heap fs dirs io_fault polls trace length]).

(** ** The index rebuild *)
Section RebuildProofs.

Context `{C : Collaborators}.
Variables (bc : Blockchain) (quit : chan).

Lemma rebuild_loop_each (headSeq : uint64) :
  headSeq < uint64_modulus - 1 →
  ∀ (n fuel : nat) (i : uint64) (tx : tx_data) (w : World),
    i + N.of_nat n = headSeq + 1 →
    (n < fuel)%nat →
    rebuild_loop fuel bc quit headSeq i tx w
    = rebuild_each bc quit (uint_range i n) tx w.
Proof.
  intros Hhead. unfold uint64_modulus in Hhead.
  induction n as [|n IH]; intros fuel i tx w Hi Hfuel;
    (destruct fuel as [|fuel]; [lia|]); simpl.
  - replace (i <=? headSeq) with false by (symmetry; apply N.leb_gt; lia).
    reflexivity.
  - replace (i <=? headSeq) with true by (symmetry; apply N.leb_le; lia).
    unfold bind at 1. unfold bind at 3.
    destruct (poll quit w) as [[[] w1]| |]; try reflexivity.
    unfold bind.
    destruct (emit (EvGetSignedBlockBySeq i) w1) as [[[] w2]| |]; try reflexivity.
    destruct (bc_GetSignedBlockBySeq bc tx i) as [[sb|] [e|]]; try reflexivity.
    destruct (emit (EvParseBlock (Block sb)) w2) as [[[] w3]| |]; try reflexivity.
    destruct (history_ParseBlock tx (Block sb)) as [tx' [e|]]; try reflexivity.
    replace ((i + 1) mod uint64_modulus) with (i + 1)
      by (unfold uint64_modulus; symmetry; apply N.mod_small; lia).
    apply IH; lia.
Qed.

(** With enough fuel the source and the specification's wording are the
    same computation. *)
Lemma rebuild_tx_refines (fuel : nat) (tx : tx_data) (w : World) :
  (bc_HeadSeq bc (history_Erase tx).1).1.1 < uint64_modulus - 1 →
  (N.to_nat (bc_HeadSeq bc (history_Erase tx).1).1.1 + 1 < fuel)%nat →
  rebuild_tx fuel bc quit tx w = rebuild_tx_spec bc quit tx w.
Proof.
  intros Hhead Hfuel. unfold rebuild_tx, rebuild_tx_spec, bind.
  destruct (emit EvErase w) as [[[] w1]| |]; try reflexivity.
  destruct (history_Erase tx) as [tx1 [e|]]; try reflexivity.
  destruct (emit EvHeadSeq w1) as [[[] w2]| |]; try reflexivity.
  cbn [fst] in Hhead, Hfuel.
  destruct (bc_HeadSeq bc tx1) as [[headSeq []] [e|]];
    cbn [fst negb] in Hhead, Hfuel |- *; try reflexivity.
  apply rebuild_loop_each; [assumption|lia|lia].
Qed.

Lemma db_Update_ext (db : nat) (name : string) fn fn' (o : DB tx_data) (w : World) :
  heap w !! db = Some o →
  (∀ w', fn (db_data o) w' = fn' (db_data o) w') →
  db_Update db name fn w = db_Update db name fn' w.
Proof.
  intros Hdb Hext. run_go. rewrite Hdb.
  destruct (negb (db_opened o)); [reflexivity|].
  destruct (db_readOnly o); [reflexivity|].
  by rewrite Hext.
Qed.

Lemma record_record (a b : list event) (w : World) :
  record b (record a w) = record (a ++ b) w.
Proof. unfold record. simpl. by rewrite app_assoc. Qed.

Lemma record_nil (w : World) : record [] w = w.
Proof. destruct w. unfold record. simpl. by rewrite app_nil_r. Qed.

Lemma polled_polled (a b : nat) (w : World) :
  polled b (polled a w) = polled (a + b) w.
Proof. unfold polled. simpl. f_equal. lia. Qed.

Lemma uint_range_app (n m : nat) : ∀ lo,
  uint_range lo (n + m) = (uint_range lo n ++ uint_range (lo + N.of_nat n) m)%list.
Proof.
  induction n as [|n IH]; intros lo; simpl.
  - by rewrite N.add_0_r.
  - rewrite IH. do 3 f_equal. lia.
Qed.

Lemma uint_range_length (n : nat) : ∀ lo, length (uint_range lo n) = n.
Proof. induction n as [|n IH]; intros lo; simpl; [done|by rewrite IH]. Qed.

(** The steps before the one that ends the loop: every poll finds the
    channel silent, every fetch and parse succeeds. *)
Lemma rebuild_each_app (seqs rest : list uint64) : ∀ tx w txn evs,
  replay bc (polls w) seqs tx = Some (txn, evs) →
  (∀ j, (j < length seqs)%nat → quit (polls w + j)%nat = false) →
  rebuild_each bc quit (seqs ++ rest) tx w
  = rebuild_each bc quit rest txn (polled (length seqs) (record evs w)).
Proof.
  induction seqs as [|i seqs IH]; intros tx w txn evs Hrep Hquiet; simpl in *.
  - injection Hrep as <- <-. rewrite record_nil.
    destruct w; unfold polled; simpl. by rewrite Nat.add_0_r.
  - destruct (bc_GetSignedBlockBySeq bc tx i) as [[sb|] [e|]]; try discriminate.
    destruct (history_ParseBlock tx (Block sb)) as [tx' [e|]]; try discriminate.
    destruct (replay bc (S (polls w)) seqs tx') as [[txn' evs']|] eqn:Hrest;
      try discriminate.
    injection Hrep as <- <-.
    unfold bind, poll, get_world, emit, set_polls, ret. simpl.
    pose proof (Hquiet 0%nat ltac:(lia)) as H0. rewrite Nat.add_0_r in H0.
    rewrite H0.
    erewrite IH; [|simpl; exact Hrest|].
    + f_equal. unfold polled, record. simpl. f_equal; [lia|].
      rewrite <- !app_assoc. reflexivity.
    + intros j Hj. simpl. specialize (Hquiet (S j) ltac:(lia)).
      by replace (S (polls w + j))%nat with (polls w + S j)%nat by lia.
Qed.

Lemma rebuild_each_nil (tx : tx_data) (w : World) :
  rebuild_each bc quit [] tx w = Returns ((tx, None), w).
Proof. reflexivity. Qed.

Lemma rebuild_each_signaled (i : uint64) (rest : list uint64) (tx : tx_data) (w : World) :
  quit (polls w) = true →
  rebuild_each bc quit (i :: rest) tx w
  = Returns ((tx, None), polled 1 (record [EvPollQuit (polls w)] w)).
Proof.
  intros Hq. simpl. unfold bind, poll, get_world, emit, set_polls, ret. simpl.
  rewrite Hq. unfold polled, record. simpl. do 3 f_equal. lia.
Qed.

(** [db.Update] around a closure whose run is known. *)
Lemma db_Update_commit (db : nat) (name : string) fn (o : DB tx_data) (w w' : World) tx' :
  heap w !! db = Some o → db_opened o = true → db_readOnly o = false →
  fn (db_data o) (record [EvUpdate name] w) = Returns ((tx', None), w') →
  io_fault w' EvCommit = None →
  db_Update db name fn w
  = Returns (None, with_heap (<[db := mkDB (db_path o) (db_readOnly o) (db_opened o) tx']> (heap w'))
                     (with_fs (alter (bolt_pages tx') (db_path o) (fs w'))
                        (record [EvCommit] w'))).
Proof.
  intros Hdb Hopen Hrw Hfn Hio. run_go.
  fold (record [EvUpdate name] w). rewrite Hdb, Hopen, Hrw. cbn [negb].
  rewrite Hfn, Hio. reflexivity.
Qed.

Lemma db_Update_rollback (db : nat) (name : string) fn (o : DB tx_data) (w w' : World) tx' e :
  heap w !! db = Some o → db_opened o = true → db_readOnly o = false →
  fn (db_data o) (record [EvUpdate name] w) = Returns ((tx', Some e), w') →
  db_Update db name fn w = Returns (Some e, record [EvRollback] w').
Proof.
  intros Hdb Hopen Hrw Hfn. run_go.
  fold (record [EvUpdate name] w). rewrite Hdb, Hopen, Hrw. cbn [negb].
  rewrite Hfn. reflexivity.
Qed.

(** The loop itself, whatever the head: [n] steps that go well, none of
    them past the largest [uint64], take the counter from [i] to [i + n]. *)
Lemma rebuild_loop_replay (headSeq : uint64) :
  ∀ (n fuel : nat) (i : uint64) (tx : tx_data) (w : World) txn evs,
    i + N.of_nat n ≤ headSeq + 1 → i + N.of_nat n < uint64_modulus →
    replay bc (polls w) (uint_range i n) tx = Some (txn, evs) →
    (∀ j, (j < n)%nat → quit (polls w + j)%nat = false) →
    rebuild_loop (n + fuel) bc quit headSeq i tx w
    = rebuild_loop fuel bc quit headSeq (i + N.of_nat n) txn (polled n (record evs w)).
Proof.
  induction n as [|n IH]; intros fuel i tx w txn evs Hle Hlt Hrep Hquiet; simpl in Hrep.
  - injection Hrep as <- <-. rewrite N.add_0_r, record_nil. cbn [Nat.add].
    f_equal. destruct w; unfold polled; simpl. by rewrite Nat.add_0_r.
  - destruct (bc_GetSignedBlockBySeq bc tx i) as [[sb|] [e|]] eqn:Hget; try discriminate.
    destruct (history_ParseBlock tx (Block sb)) as [tx' [e|]] eqn:Hparse; try discriminate.
    destruct (replay bc (S (polls w)) (uint_range (i + 1) n) tx') as [[txn' evs']|] eqn:Hrest;
      try discriminate.
    injection Hrep as <- <-.
    change (S n + fuel)%nat with (S (n + fuel)). cbn [rebuild_loop].
    replace (i <=? headSeq) with true by (symmetry; apply N.leb_le; lia).
    run_go.
    pose proof (Hquiet 0%nat ltac:(lia)) as H0. rewrite Nat.add_0_r in H0.
    rewrite H0, Hget, Hparse.
    replace ((i + 1) mod uint64_modulus) with (i + 1)
      by (symmetry; apply N.mod_small; lia).
    erewrite IH; [|lia|lia|cbn [polls]; exact Hrest|].
    + f_equal; [lia|]. unfold polled, record. cbn [heap fs dirs io_fault polls trace].
      f_equal; [lia|]. rewrite <- !app_assoc. reflexivity.
    + intros j Hj. specialize (Hquiet (S j) ltac:(lia)).
      etransitivity; [|exact Hquiet]. f_equal. cbn [polls]. lia.
Qed.

Lemma rebuild_loop_signaled (fuel : nat) (headSeq i : uint64) (tx : tx_data) (w : World) :
  i ≤ headSeq → quit (polls w) = true →
  rebuild_loop (S fuel) bc quit headSeq i tx w
  = Returns ((tx, None), polled 1 (record [EvPollQuit (polls w)] w)).
Proof.
  intros Hi Hq. cbn [rebuild_loop].
  replace (i <=? headSeq) with true by (symmetry; apply N.leb_le; lia).
  run_go. rewrite Hq. unfold polled, record. cbn [heap fs dirs io_fault polls trace].
  do 3 f_equal. lia.
Qed.

Lemma rebuild_loop_done (fuel : nat) (headSeq i : uint64) (tx : tx_data) (w : World) :
  headSeq < i →
  rebuild_loop (S fuel) bc quit headSeq i tx w = Returns ((tx, None), w).
Proof.
  intros Hi. cbn [rebuild_loop].
  replace (i <=? headSeq) with false by (symmetry; apply N.leb_gt; lia).
  reflexivity.
Qed.

(** The rebuild after [n] steps that went well and that a signaled poll or
    the head ends: it commits the index built so far.  The head is any
    [uint64]; only the steps made stay below 2^64. *)
Lemma rebuildCorruptDB_commits (fuel db : nat) (o : DB tx_data) (w : World)
    (tx1 txn : tx_data) (headSeq : uint64) (n : nat) (evs : list event) :
  heap w !! db = Some o → db_opened o = true → db_readOnly o = false →
  history_Erase (db_data o) = (tx1, None) →
  bc_HeadSeq bc tx1 = (headSeq, true, None) →
  N.of_nat n ≤ headSeq + 1 → N.of_nat n < uint64_modulus → (n < fuel)%nat →
  replay bc (polls w) (uint_range 0 n) tx1 = Some (txn, evs) →
  (∀ j, (j < n)%nat → quit (polls w + j)%nat = false) →
  (N.of_nat n ≤ headSeq → quit (polls w + n)%nat = true) →
  io_fault w EvCommit = None →
  let prologue := [EvUpdate "Rebuild history db"; EvErase; EvHeadSeq] in
  let stop :=
    if decide (N.of_nat n ≤ headSeq) then [EvPollQuit (polls w + n)] else [] in
  rebuildCorruptDB fuel db bc quit w
  = Returns (None,
             with_heap (<[db := mkDB (db_path o) (db_readOnly o) (db_opened o) txn]> (heap w))
               (with_fs (alter (bolt_pages txn) (db_path o) (fs w))
                  (polled (n + length stop)
                     (record (prologue ++ evs ++ stop ++ [EvCommit]) w)))).
Proof.
  intros Hdb Hopen Hrw Herase Hhead Hn Hwrap Hfuel Hrep Hquiet Hstop Hio prologue stop.
  set (w2 := record [EvErase; EvHeadSeq] (record [EvUpdate "Rebuild history db"] w)).
  assert (Hbody : rebuild_tx fuel bc quit (db_data o) (record [EvUpdate "Rebuild history db"] w)
                  = Returns ((txn, None), polled (n + length stop) (record (evs ++ stop) w2))).
  { unfold rebuild_tx. run_go. rewrite Herase. run_go. rewrite Hhead. cbn [negb].
    replace fuel with (n + S (fuel - S n))%nat by lia.
    erewrite rebuild_loop_replay; [|lia|rewrite N.add_0_l; exact Hwrap|exact Hrep|exact Hquiet].
    rewrite N.add_0_l. unfold stop.
    destruct (decide (N.of_nat n ≤ headSeq)) as [Hle|Hgt].
    - rewrite rebuild_loop_signaled by (cbn [polls polled record]; first [lia|auto]).
      f_equal. f_equal. subst w2. unfold_world.
      f_equal; [lia|]. by rewrite <- !app_assoc.
    - rewrite rebuild_loop_done by lia.
      f_equal. f_equal. subst w2. unfold_world.
      f_equal; [lia|]. rewrite <- !app_assoc. cbn [app]. by rewrite app_nil_r. }
  unfold rebuildCorruptDB.
  erewrite db_Update_commit; [|exact Hdb|exact Hopen|exact Hrw|exact Hbody|exact Hio].
  f_equal. f_equal. subst w2 prologue. unfold_world. f_equal.
  rewrite <- !app_assoc. reflexivity.
Qed.

(** At the largest head the loop has no way out but a signal or an error. *)
Lemma rebuild_loop_never_leaves (I : tx_data → Prop) (fuel : nat) :
  (∀ k, quit k = false) →
  (∀ tx i, I tx → ∃ sb tx', bc_GetSignedBlockBySeq bc tx i = (Some sb, None) ∧
                            history_ParseBlock tx (Block sb) = (tx', None) ∧ I tx') →
  ∀ (i : uint64) (tx : tx_data) (w : World),
    I tx → i < uint64_modulus →
    rebuild_loop fuel bc quit (uint64_modulus - 1) i tx w = OutOfFuel.
Proof.
  intros Hquit Hstep. unfold uint64_modulus.
  induction fuel as [|fuel IH]; intros i tx w Htx Hi; [reflexivity|].
  cbn [rebuild_loop].
  replace (i <=? 2 ^ 64 - 1) with true by (symmetry; apply N.leb_le; lia).
  run_go. rewrite Hquit.
  destruct (Hstep tx i Htx) as (sb & tx' & -> & Hparse & Htx'). run_go.
  rewrite Hparse. apply IH; [exact Htx'|]. apply N.mod_lt. discriminate.
Qed.


Lemma rebuildCorruptDB_no_head (fuel db : nat) (o : DB tx_data) (w : World)
    (tx1 : tx_data) (headSeq : uint64) :
  heap w !! db = Some o → db_opened o = true → db_readOnly o = false →
  history_Erase (db_data o) = (tx1, None) →
  bc_HeadSeq bc tx1 = (headSeq, false, None) →
  rebuildCorruptDB fuel db bc quit w
  = Returns (Some (errorString "head block does not exist"),
             record [EvUpdate "Rebuild history db"; EvErase; EvHeadSeq; EvRollback] w).
Proof.
  intros Hdb Hopen Hrw Herase Hhead. unfold rebuildCorruptDB.
  erewrite db_Update_rollback; [|exact Hdb|exact Hopen|exact Hrw|].
  2:{ unfold rebuild_tx. run_go. rewrite Herase. run_go. rewrite Hhead. reflexivity. }
  f_equal. f_equal. unfold_world. f_equal. by rewrite <- !app_assoc.
Qed.

Lemma rebuildCorruptDB_refines (fuel db : nat) (o : DB tx_data) (w : World)
    (tx1 : tx_data) (headSeq : uint64) (ok : bool) :
  heap w !! db = Some o →
  history_Erase (db_data o) = (tx1, None) →
  bc_HeadSeq bc tx1 = (headSeq, ok, None) →
  headSeq < uint64_modulus - 1 → (N.to_nat headSeq + 1 < fuel)%nat →
  rebuildCorruptDB fuel db bc quit w = rebuild_spec db bc quit w.
Proof.
  intros Hdb Herase Hhead Hbound Hfuel.
  unfold rebuildCorruptDB, rebuild_spec. eapply db_Update_ext; [exact Hdb|].
  intros w'. apply rebuild_tx_refines; rewrite Herase; cbn [fst];
    rewrite Hhead; cbn [fst]; assumption.
Qed.

End RebuildProofs.


(** ** [CheckDatabase] *)
Section CheckProofs.

Context `{C : Collaborators}.

Lemma go_and_wait_select (body : M (option error)) (w : World) :
  (let* errC := go_and_wait body in
   match errC with
   | err :: _ => ret err
   | [] => ret None
   end) w = body w.
Proof.
  unfold go_and_wait, bind, ret. destruct (body w) as [[r w']| |]; reflexivity.
Qed.

Lemma CheckDatabase_classify (fuel db : nat) (pubkey : cipher_PubKey) (quit : chan)
    (w : World) (o o' : DB tx_data) (bc : Blockchain) (werr : option error) (n : nat) :
  heap w !! db = Some o → db_opened o = true →
  dbutil_Exists (db_data o) BlocksBkt = true →
  NewBlockchain o pubkey = (inl bc, o') →
  bc_WalkChain bc o' BlockchainVerifyTheadNum (verifyFunc bc) historydb_NewIndexesMap
    quit (polls w) = (werr, n) →
  CheckDatabase fuel db pubkey quit w =
  match werr with
  | None => Returns (None, after_walk db o' n w)
  | Some (ErrMissingSignature m) =>
      Returns (Some (ErrCorruptDB (ErrMissingSignature m)), after_walk db o' n w)
  | Some (ErrHistoryDBCorrupted _) =>
      rebuildCorruptDB fuel db bc quit (after_walk db o' n w)
  | Some err => Returns (Some err, after_walk db o' n w)
  end.
Proof.
  intros Hdb Hopen Hbkt Hnew Hwalk.
  unfold CheckDatabase. run_go. rewrite Hdb, Hopen. run_go.
  rewrite Hbkt. unfold default, id. cbn [negb]. run_go. rewrite Hdb, Hnew. run_go.
  rewrite Hwalk. run_go.
  rewrite <- !app_assoc. cbn [app].
  fold (after_walk db o' n w).
  destruct werr as [[]|]; try reflexivity.
  unfold go_and_wait, bind, ret.
  destruct (rebuildCorruptDB fuel db bc quit (after_walk db o' n w)) as [[r w']| |];
    reflexivity.
Qed.

Lemma CheckDatabase_no_bucket (fuel db : nat) (pubkey : cipher_PubKey) (quit : chan)
    (w : World) (o : DB tx_data) :
  heap w !! db = Some o →
  db_opened o = false ∨ dbutil_Exists (db_data o) BlocksBkt = false →
  CheckDatabase fuel db pubkey quit w = Returns (None, record [EvView "CheckDatabase"] w).
Proof.
  intros Hdb Hno. unfold CheckDatabase. run_go. rewrite Hdb.
  destruct (db_opened o) eqn:Hopen; run_go.
  - destruct Hno as [?|Hbkt]; [discriminate|]. rewrite Hbkt. reflexivity.
  - reflexivity.
Qed.

End CheckProofs.

(** ** The goroutine of the repair branch *)
Section AwaitProofs.

Context `{C : Collaborators}.
Variable rebuild : M (option error).
Variable w0 : World.

Import Await.

Lemma inv_initial : inv rebuild w0 (initial w0).
Proof. unfold inv, initial. cbn. auto. Qed.

Lemma inv_step (s s' : state) :
  inv rebuild w0 s → step rebuild s s' → inv rebuild w0 s'.
Proof.
  unfold inv. intros Hinv Hstep.
  destruct Hstep as [w n ch m err w' Hrun|w n ch m err Hcap|w n ch m
                    |w n ch m Hrun|w n ch m|w n ch m
                    |w ch g Hg|w n err ch g Hg|w n g Hg]; cbn in *.
  - destruct Hinv as (-> & -> & -> & ->). auto.
  - destruct Hinv as (Hrun & -> & -> & ->). exists err. cbn. auto.
  - destruct Hinv as (err & Hrun & -> & -> & ->). exists err. cbn. auto 6.
  - destruct Hinv as (-> & -> & -> & ->). auto.
  - destruct Hinv as (Hrun & -> & -> & -> & ->). cbn. repeat split; auto.
  - exact Hinv.
  - destruct g; cbn in *; try done.
    + destruct Hinv as (_ & Hwg & _). discriminate.
    + destruct Hinv as (_ & Hwg & _). discriminate.
    + destruct Hinv as (e & _ & Hwg & _). discriminate.
    + destruct Hinv as (e & Hrun & _ & [[-> _]|[_ Hm]]); [|discriminate].
      exists e. auto 6.
    + destruct Hinv as (_ & _ & Hwg & _). discriminate.
    + destruct Hinv as (Hrun & -> & _ & -> & _). repeat split; auto.
  - destruct g; cbn in *; try done.
    + destruct Hinv as (_ & _ & _ & Hm). discriminate.
    + destruct Hinv as (_ & _ & _ & Hm). discriminate.
    + destruct Hinv as (e & _ & _ & _ & Hm). discriminate.
    + destruct Hinv as (e & Hrun & Hwg & [[Hch _]|[_ Hm]]); [|discriminate].
      injection Hch as -> ->. exists e. auto.
    + destruct Hinv as (_ & _ & _ & _ & Hm). discriminate.
    + destruct Hinv as (_ & _ & _ & Hch & _). discriminate.
  - destruct g; cbn in *; try done.
    + destruct Hinv as (_ & _ & _ & Hm). discriminate.
    + destruct Hinv as (_ & _ & _ & Hm). discriminate.
    + destruct Hinv as (e & _ & _ & _ & Hm). discriminate.
    + destruct Hinv as (e & _ & _ & [[Hch _]|[_ Hm]]); discriminate.
    + destruct Hinv as (_ & _ & _ & _ & Hm). discriminate.
    + destruct Hinv as (Hrun & -> & -> & _). repeat split; auto.
Qed.

Lemma inv_reachable (s : state) :
  rtc (step rebuild) (initial w0) s → inv rebuild w0 s.
Proof.
  revert s. apply rtc_ind_r.
  - apply inv_initial.
  - intros y z _ Hstep Hy. eapply inv_step; eassumption.
Qed.



(** When the rebuild panics, four steps lead the caller to return nil
    through the [default] branch, the program still running. *)
Lemma panic_reaches_default :
  rebuild w0 = Panics →
  rtc (step rebuild) (initial w0) (mkState w0 0 [] (Returned None) Dying).
Proof.
  intros Hrun. unfold initial.
  eapply rtc_l; [apply step_panic; exact Hrun|].
  eapply rtc_l; [apply step_panic_done|].
  eapply rtc_l; [by apply step_wait|].
  eapply rtc_l; [by apply step_select_default|].
  apply rtc_refl.
Qed.



(** The [default] branch is taken only after a panic: at the [select] the
    channel is empty only when the rebuild has panicked. *)
Lemma select_empty_is_panic (s : state) :
  rtc (step rebuild) (initial w0) s →
  main s = AtSelect → errC s = [] → rebuild w0 = Panics.
Proof.
  intros Hrtc Hm Hch. apply inv_reachable in Hrtc. unfold inv in Hrtc.
  destruct (worker s).
  - destruct Hrtc as (_ & _ & _ & ?). congruence.
  - destruct Hrtc as (_ & _ & _ & ?). congruence.
  - destruct Hrtc as (e & _ & _ & _ & ?). congruence.
  - destruct Hrtc as (e & _ & _ & [[? _]|[_ ?]]); congruence.
  - by destruct Hrtc as (? & _).
  - by destruct Hrtc as (? & _).
  - by destruct Hrtc as (? & _).
Qed.

(** When the rebuild returns or panics nothing blocks: a reachable state
    has a step, unless the caller has returned and the goroutine has
    exited, or the program has ended. *)
Lemma reachable_progress (s : state) :
  rtc (step rebuild) (initial w0) s →
  (∃ r w', rebuild w0 = Returns (r, w')) ∨ rebuild w0 = Panics →
  (∃ r, main s = Returned r ∧ worker s = Exited) ∨ worker s = Crashed ∨
  ∃ s', step rebuild s s'.
Proof.
  intros Hrtc Hends. apply inv_reachable in Hrtc. unfold inv in Hrtc.
  destruct s as [w n ch m g]. cbn in *. destruct g.
  - destruct Hrtc as (-> & -> & -> & ->). right. right.
    destruct Hends as [(r & w' & Hrun)|Hrun].
    + eexists. apply step_rebuild. exact Hrun.
    + eexists. apply step_panic. exact Hrun.
  - destruct Hrtc as (_ & -> & -> & ->). right. right.
    eexists. apply step_send. cbn. lia.
  - right. right. eexists. apply step_done.
  - destruct Hrtc as (e & _ & -> & [[-> [->| ->]]|[-> ->]]).
    + right. right. eexists. by apply step_wait.
    + right. right. eexists. by apply step_select_recv.
    + left. by exists e.
  - right. right. eexists. apply step_panic_done.
  - right. right. eexists. apply step_crash.
  - right. by left.
Qed.

End AwaitProofs.

(** C1.  Once the walk has returned, [CheckDatabase] is decided by the
    dynamic type of the walk's error: nil is success; a missing-signature
    error comes back wrapped in [ErrCorruptDB]; a corrupted-history error
    hands over to the rebuild; any other error comes back as it is.  Apart
    from the rebuild branch the world is the one the walk left: nothing is
    rebuilt, closed, renamed or opened. *)
Theorem C1_walk_result_classification `{C : Collaborators}
    (fuel db : nat) (pubkey : cipher_PubKey) (quit : chan)
    (w : World) (o o' : DB tx_data) (bc : Blockchain) (werr : option error) (n : nat) :
  heap w !! db = Some o → db_opened o = true →
  dbutil_Exists (db_data o) BlocksBkt = true →
  NewBlockchain o pubkey = (inl bc, o') →
  bc_WalkChain bc o' BlockchainVerifyTheadNum (verifyFunc bc) historydb_NewIndexesMap
    quit (polls w) = (werr, n) →
  match werr with
  | None =>
      CheckDatabase fuel db pubkey quit w = Returns (None, after_walk db o' n w)
  | Some (ErrMissingSignature m) =>
      CheckDatabase fuel db pubkey quit w
      = Returns (Some (ErrCorruptDB (ErrMissingSignature m)), after_walk db o' n w)
  | Some (ErrHistoryDBCorrupted _) =>
      CheckDatabase fuel db pubkey quit w
      = rebuildCorruptDB fuel db bc quit (after_walk db o' n w)
  | Some err =>
      CheckDatabase fuel db pubkey quit w = Returns (Some err, after_walk db o' n w)
  end.
Proof.
  intros Hdb Hopen Hbkt Hnew Hwalk.
  rewrite (CheckDatabase_classify fuel db pubkey quit w o o' bc werr n) by assumption.
  destruct werr as [[]|]; reflexivity.
Qed.

Lemma C1_witness :
  CheckDatabase (C := Toy.collaborators) 10 1 () Toy.never (Toy.world Toy.bad_signature [])
  = Returns (Some (ErrCorruptDB (ErrMissingSignature "signature not found")),
             after_walk (C := Toy.collaborators) 1
               (mkDB "/data/data.db" false true Toy.bad_signature) 2
               (Toy.world Toy.bad_signature [])).
Proof.
  exact (C1_walk_result_classification (C := Toy.collaborators) 10 1 () Toy.never
           (Toy.world Toy.bad_signature [])
           (mkDB "/data/data.db" false true Toy.bad_signature)
           (mkDB "/data/data.db" false true Toy.bad_signature)
           () (Some (ErrMissingSignature "signature not found")) 2
           eq_refl eq_refl eq_refl eq_refl eq_refl).
Defined.

(** C1, against the wording of the specification.  A chain whose second
    block has a signature that does not verify: [VerifySignature] reports
    it with a plain error, the walk returns that error, and
    [CheckDatabase] returns it as it is, not wrapped in [ErrCorruptDB];
    [ResetCorruptDB] returns it with no handle, and nothing is closed,
    renamed or opened. *)
Lemma C1_counterexample :
  let w := Toy.world Toy.invalid_signature [] in
  let err := errorString "Recovered pubkey does not match pubkey" in
  bc_VerifySignature (Collaborators := Toy.collaborators) ()
    (mkSignedBlock 11 Toy.BadSig) = Some err ∧
  observe (CheckDatabase (C := Toy.collaborators) 10 1 () Toy.never w)
  = Some (Some err, [EvView "CheckDatabase"; EvNewBlockchain; EvWalkChain 4]) ∧
  observe (ResetCorruptDB (C := Toy.collaborators) 10 1 () Toy.never w)
  = Some ((None, Some err), [EvView "CheckDatabase"; EvNewBlockchain; EvWalkChain 4]).
Proof. cbv zeta. split; [|split]; vm_compute; reflexivity. Qed.

(** C6.  When the blocks bucket does not exist [CheckDatabase] returns nil
    after the read transaction alone: no blockchain is constructed, the
    chain is not walked, nothing is verified, and the store is as it was. *)
Theorem C6_no_blocks_bucket_is_success `{C : Collaborators}
    (fuel db : nat) (pubkey : cipher_PubKey) (quit : chan) (w : World) (o : DB tx_data) :
  heap w !! db = Some o →
  dbutil_Exists (db_data o) BlocksBkt = false →
  CheckDatabase fuel db pubkey quit w = Returns (None, record [EvView "CheckDatabase"] w).
Proof.
  intros Hdb Hbkt. eapply CheckDatabase_no_bucket; [exact Hdb|by right].
Qed.

Lemma C6_witness :
  CheckDatabase (C := Toy.collaborators) 10 1 () Toy.never (Toy.world Toy.pristine [])
  = Returns (None, record [EvView "CheckDatabase"] (Toy.world Toy.pristine [])).
Proof.
  exact (C6_no_blocks_bucket_is_success (C := Toy.collaborators) 10 1 () Toy.never
           (Toy.world Toy.pristine []) (mkDB "/data/data.db" false true Toy.pristine)
           eq_refl eq_refl).
Defined.




(** C3.  A closed handle on a store whose chain has a block with a bad
    signature: the read transaction of [CheckDatabase] fails with
    [ErrDatabaseNotOpen], the error is dropped, and [CheckDatabase] returns
    nil; [ResetCorruptDB] then hands the handle back as healthy. *)
Theorem C3_view_error_is_dropped :
  let w := Toy.closed_world Toy.bad_signature [] in
  observe (db_View (C := Toy.collaborators) 1 "CheckDatabase" Toy.exists_blocks_bkt w)
    = Some ((None, Some ErrDatabaseNotOpen), [EvView "CheckDatabase"]) ∧
  observe (CheckDatabase (C := Toy.collaborators) 10 1 () Toy.never w)
    = Some (None, [EvView "CheckDatabase"]) ∧
  observe (ResetCorruptDB (C := Toy.collaborators) 10 1 () Toy.never w)
    = Some ((Some 1%nat, None), [EvView "CheckDatabase"]).
Proof. cbv zeta. split; [|split]; vm_compute; reflexivity. Qed.


(** ** [path/filepath] *)
Section FilepathProofs.

Import filepath.

Local Lemma app_cons (c : ascii) (a b : string) : String c a ++ b = String c (a ++ b).
Proof. reflexivity. Qed.

Local Lemma app_empty_r (a : string) : a ++ "" = a.
Proof. induction a as [|c a IH]; [reflexivity|]. by rewrite app_cons, IH. Qed.

Local Lemma app_assoc_s (a b c : string) : (a ++ b) ++ c = a ++ (b ++ c).
Proof. induction a as [|x a IH]; [reflexivity|]. by rewrite !app_cons, IH. Qed.

Local Lemma length_app_s (a b : string) :
  String.length (a ++ b) = (String.length a + String.length b)%nat.
Proof. induction a as [|x a IH]; [reflexivity|]. rewrite app_cons. cbn. by rewrite IH. Qed.

Lemma has_sep_app (a b : string) : has_sep (a ++ b) = has_sep a || has_sep b.
Proof.
  induction a as [|c a IH]; [reflexivity|].
  rewrite app_cons. cbn. rewrite IH. by rewrite orb_assoc.
Qed.

Lemma elements_nonempty (path : string) : elements path ≠ [].
Proof.
  destruct path as [|c r]; cbn; [discriminate|].
  destruct (is_sep c); [discriminate|]. destruct (elements r); discriminate.
Qed.

(** An element before a separator, then the elements of the rest. *)
Lemma elements_app_sep (a b : string) :
  elements (a ++ String Separator b) = (elements a ++ elements b)%list.
Proof.
  induction a as [|c a IH].
  - reflexivity.
  - rewrite app_cons. cbn. rewrite IH. destruct (is_sep c); [reflexivity|].
    pose proof (elements_nonempty a) as Hne.
    destruct (elements a); [contradiction|reflexivity].
Qed.

(** A string without separator in front of a path joins its first
    element. *)
Lemma elements_app_no_sep (a b : string) :
  has_sep a = false →
  elements (a ++ b) =
  match elements b with
  | e :: es => (a ++ e) :: es
  | [] => [a]
  end.
Proof.
  induction a as [|c a IH]; intros Ha.
  - change ("" ++ b) with b. pose proof (elements_nonempty b).
    destruct (elements b); [contradiction|reflexivity].
  - cbn in Ha. apply orb_false_iff in Ha as [Hc Ha].
    rewrite app_cons. cbn. rewrite Hc, (IH Ha).
    destruct (elements b); reflexivity.
Qed.

Lemma Split_snd_no_sep (path : string) : has_sep (Split path).2 = false.
Proof.
  induction path as [|c r IH]; [reflexivity|]. cbn.
  destruct (has_sep r) eqn:Hr.
  - destruct (Split r) as [d f]. exact IH.
  - destruct (is_sep c) eqn:Hc; cbn; [exact Hr|by rewrite Hc, Hr].
Qed.

Lemma join_sep_elements (path : string) : join_sep (elements path) = path.
Proof.
  induction path as [|c r IH]; [reflexivity|]. cbn.
  destruct (is_sep c) eqn:Hc.
  - apply Ascii.eqb_eq in Hc as ->.
    pose proof (elements_nonempty r).
    destruct (elements r) as [|e es] eqn:He; [contradiction|].
    change (join_sep ("" :: e :: es)) with (String Separator (join_sep (e :: es))).
    by rewrite IH.
  - destruct (elements r) as [|e es] eqn:He.
    + by destruct (elements_nonempty r).
    + destruct es as [|e' es].
      * cbn in IH |- *. by rewrite IH.
      * change (join_sep (String c e :: e' :: es))
          with (String c (e ++ String Separator (join_sep (e' :: es)))).
        change (join_sep (e :: e' :: es))
          with (e ++ String Separator (join_sep (e' :: es))) in IH.
        by rewrite IH.
Qed.

Lemma clean_step_plain (rooted : bool) (out : list string) (e : string) :
  plain e = true → clean_step rooted out e = e :: out.
Proof.
  unfold plain, clean_step. intros H.
  apply andb_true_iff in H as [H H3]. apply andb_true_iff in H as [H1 H2].
  apply negb_true_iff in H1, H2, H3. by rewrite H1, H2, H3.
Qed.

Lemma foldl_clean_plain (rooted : bool) (es : list string) : ∀ out,
  forallb plain es = true →
  foldl (clean_step rooted) out es = (rev es ++ out)%list.
Proof.
  induction es as [|e es IH]; intros out H; [reflexivity|].
  cbn in H. apply andb_true_iff in H as [He Hes].
  cbn [foldl]. rewrite clean_step_plain by exact He. rewrite IH by exact Hes.
  cbn [rev]. by rewrite <- app_assoc.
Qed.

Lemma join_sep_app (l es : list string) :
  es ≠ [] →
  join_sep (l ++ es) = foldr (λ e acc, e ++ String Separator acc) "" l ++ join_sep es.
Proof.
  intros Hes. induction l as [|e l IH]; [reflexivity|].
  cbn [app foldr]. rewrite app_assoc_s, app_cons. rewrite <- IH.
  destruct (l ++ es)%list eqn:Hl; [|reflexivity].
  apply app_eq_nil in Hl as [_ Hl]. contradiction.
Qed.

Lemma plain_length (e : string) : (2 < String.length e)%nat → plain e = true.
Proof.
  destruct e as [|a [|b [|c e]]]; cbn [String.length]; intros H; try lia.
  unfold plain. cbn.
  rewrite !andb_true_iff, !negb_true_iff. repeat split;
    repeat (match goal with |- (if ?b then _ else _) = false => destruct b end; try reflexivity).
Qed.

(** [Clean] leaves a name with plain elements as it is. *)
Lemma Clean_plain (name : string) :
  forallb plain (elements name) = true → Clean name = name.
Proof.
  intros Hplain. destruct name as [|c r] eqn:Hname; [discriminate|].
  rewrite <- Hname in *. unfold Clean. rewrite Hname at 1.
  assert (Hroot : is_sep c = false).
  { destruct (is_sep c) eqn:Hc; [|reflexivity].
    rewrite Hname in Hplain. cbn in Hplain. rewrite Hc in Hplain. discriminate. }
  rewrite Hroot, foldl_clean_plain by exact Hplain.
  rewrite app_nil_r, rev_involutive.
  pose proof (elements_nonempty name).
  destruct (elements name) eqn:He; [contradiction|]. rewrite <- He.
  apply join_sep_elements.
Qed.

(** After a directory, [Clean] keeps the plain elements that follow it. *)
Lemma Clean_dir_plain (dir name : string) :
  dir ≠ "" → forallb plain (elements name) = true →
  Clean (dir ++ String Separator name) = cleaned_prefix dir ++ name.
Proof.
  intros Hdir Hplain. destruct dir as [|c d]; [contradiction|].
  unfold Clean, cleaned_prefix. rewrite app_cons. cbv beta iota zeta.
  rewrite <- app_cons, elements_app_sep, foldl_app.
  rewrite foldl_clean_plain by exact Hplain. rewrite rev_app_distr, rev_involutive.
  pose proof (elements_nonempty name) as Hne.
  rewrite join_sep_app by exact Hne. rewrite join_sep_elements.
  set (pre := foldr _ _ _).
  destruct (is_sep c).
  - reflexivity.
  - change (("" ++ pre) ++ name) with (pre ++ name).
    destruct (rev (foldl (clean_step false) [] (elements (String c d))) ++ elements name)%list
      eqn:Hl; [|reflexivity].
    apply app_eq_nil in Hl as [_ Hl]. contradiction.
Qed.

(** [Join] of a directory and a name with plain elements: the name after
    a prefix that the directory alone decides. *)
Lemma Join_dir_plain (dir name : string) :
  forallb plain (elements name) = true →
  Join [dir; name] = cleaned_prefix dir ++ name.
Proof.
  intros Hplain.
  assert (Hname : String.eqb name "" = false).
  { apply String.eqb_neq. intros ->. discriminate. }
  unfold Join. destruct (String.eqb dir "") eqn:Hdir.
  - apply String.eqb_eq in Hdir as ->. rewrite Hname.
    change (strings_Join [name]) with name. rewrite Clean_plain by exact Hplain.
    reflexivity.
  - apply String.eqb_neq in Hdir.
    change (strings_Join [dir; name]) with (dir ++ String Separator name).
    by apply Clean_dir_plain.
Qed.

(** The elements of [<file>.corrupt.<hash>] are plain when the tail of
    the hash is. *)
Lemma corrupt_name_plain (file hash : string) :
  has_sep file = false → plain_tail hash = true →
  forallb plain (elements (file ++ ".corrupt." ++ hash)) = true.
Proof.
  intros Hfile Htail. rewrite <- app_assoc_s.
  rewrite elements_app_no_sep
    by (rewrite has_sep_app, Hfile; reflexivity).
  unfold plain_tail in Htail. pose proof (elements_nonempty hash).
  destruct (elements hash) as [|e es]; [contradiction|].
  cbn [tail] in Htail. cbn [forallb]. rewrite Htail, andb_true_r.
  apply plain_length. rewrite !length_app_s. cbn. lia.
Qed.

(** A name without separator is one element, so its tail is plain. *)
Lemma plain_tail_no_sep (name : string) :
  has_sep name = false → plain_tail name = true.
Proof.
  intros Hname. unfold plain_tail.
  assert (Hone : elements name = [name]).
  { induction name as [|c r IH]; [reflexivity|].
    cbn in Hname. apply orb_false_iff in Hname as [Hc Hr].
    cbn. by rewrite Hc, (IH Hr). }
  by rewrite Hone.
Qed.

End FilepathProofs.

(** ** [encoding/base64] *)
Section Base64Proofs.

Import base64.

Lemma all_below_spec (n : nat) (P : N → bool) :
  all_below n P = true → ∀ x, x < N.of_nat n → P x = true.
Proof.
  unfold all_below. rewrite forallb_forall. intros H x Hx. apply H.
  apply in_map_iff. exists (N.to_nat x). split; [lia|]. apply in_seq. lia.
Qed.

Lemma char_symbol (i : N) : i < 64 → char encodeStd i = String (symbol i) "".
Proof.
  intros Hi.
  assert (H : (String.eqb (char encodeStd i) (String (symbol i) "")) = true).
  { revert i Hi. apply (all_below_spec 64). vm_compute. reflexivity. }
  by apply String.eqb_eq in H.
Qed.




Ltac lt_bytes2 a Ha b Hb :=
  apply N.ltb_lt; revert b Hb; apply (all_below_spec 256);
  revert a Ha; apply (all_below_spec 256 (λ a, all_below 256 (λ b, _)));
  vm_compute; reflexivity.

Lemma sextet1_lt a : a < 256 → sextet1 a < 64.
Proof.
  intros Ha. apply N.ltb_lt. revert a Ha. apply (all_below_spec 256).
  vm_compute. reflexivity.
Qed.

Lemma sextet4_lt c : c < 256 → sextet4 c < 64.
Proof.
  intros Hc. apply N.ltb_lt. revert c Hc. apply (all_below_spec 256).
  vm_compute. reflexivity.
Qed.

Lemma sextet2_lt a b : a < 256 → b < 256 → sextet2 a b < 64.
Proof. intros Ha Hb. lt_bytes2 a Ha b Hb. Qed.

Lemma sextet3_lt b c : b < 256 → c < 256 → sextet3 b c < 64.
Proof. intros Hb Hc. lt_bytes2 b Hb c Hc. Qed.












Lemma be_bytes_length (k : nat) (x : N) : length (sha1.be_bytes k x) = k.
Proof. unfold sha1.be_bytes. by rewrite length_map, length_rev, length_seq. Qed.

Lemma Sum_length (msg : list byte) : length (sha1.Sum msg) = 20%nat.
Proof.
  unfold sha1.Sum. rewrite length_map, !length_app, !be_bytes_length. reflexivity.
Qed.



End Base64Proofs.

(** ** The quarantine *)
Section QuarantineProofs.

Context `{C : Collaborators}.

Lemma shaFileID_returns (dbPath : string) (bytes : list byte) (w : World) :
  fs w !! dbPath = Some bytes →
  io_fault w (EvOsOpen dbPath) = None → io_fault w (EvCopy dbPath) = None →
  shaFileID dbPath w
  = Returns ((fingerprint bytes, None), record [EvOsOpen dbPath; EvCopy dbPath; EvFileClose dbPath] w).
Proof.
  intros Hfile Hopen Hcopy. unfold shaFileID, os_Open, io_Copy. run_go.
  rewrite Hopen, Hfile. run_go. rewrite Hcopy. run_go.
  unfold fingerprint, record. cbn [app]. by rewrite <- !app_assoc.
Qed.

(** The file cannot be opened, or cannot be read: the error comes back
    with an empty name. *)
Lemma shaFileID_open_fails (dbPath : string) (w : World) (e : error) :
  match io_fault w (EvOsOpen dbPath) with
  | Some e' => e' = e
  | None => fs w !! dbPath = None ∧ (dbPath ∉ dirs w) ∧ e = PathError "open" dbPath ENOENT
  end →
  shaFileID dbPath w = Returns (("", Some e), record [EvOsOpen dbPath] w).
Proof.
  intros He. unfold shaFileID, os_Open. run_go.
  destruct (io_fault w (EvOsOpen dbPath)) as [e'|].
  - subst e'. reflexivity.
  - destruct He as (-> & Hdir & ->).
    destruct (decide (dbPath ∈ dirs w)); [contradiction|]. reflexivity.
Qed.

(** A directory is opened, cannot be read, and is closed. *)
Lemma shaFileID_directory (dbPath : string) (w : World) :
  io_fault w (EvOsOpen dbPath) = None → fs w !! dbPath = None → dbPath ∈ dirs w →
  shaFileID dbPath w
  = Returns (("", Some (default (PathError "read" dbPath EISDIR) (io_fault w (EvCopy dbPath)))),
             record [EvOsOpen dbPath; EvCopy dbPath; EvFileClose dbPath] w).
Proof.
  intros Hopen Hfile Hdir. unfold shaFileID, os_Open, io_Copy. run_go.
  rewrite Hopen, Hfile. destruct (decide (dbPath ∈ dirs w)); [|contradiction]. run_go.
  destruct (io_fault w (EvCopy dbPath)); run_go; unfold record, default, id; cbn [app];
    by rewrite <- !app_assoc.
Qed.

Lemma shaFileID_copy_fails (dbPath : string) (bytes : list byte) (w : World) (e : error) :
  fs w !! dbPath = Some bytes →
  io_fault w (EvOsOpen dbPath) = None → io_fault w (EvCopy dbPath) = Some e →
  shaFileID dbPath w = Returns (("", Some e), record [EvOsOpen dbPath; EvCopy dbPath; EvFileClose dbPath] w).
Proof.
  intros Hfile Hopen Hcopy. unfold shaFileID, os_Open, io_Copy. run_go.
  rewrite Hopen, Hfile. run_go. rewrite Hcopy. run_go.
  unfold record. cbn [app]. by rewrite <- !app_assoc.
Qed.

Lemma makeCorruptDBPath_returns (dbPath : string) (bytes : list byte) (w : World) :
  fs w !! dbPath = Some bytes →
  io_fault w (EvOsOpen dbPath) = None → io_fault w (EvCopy dbPath) = None →
  makeCorruptDBPath dbPath w
  = Returns ((corruptDBPath dbPath bytes, None), record [EvOsOpen dbPath; EvCopy dbPath; EvFileClose dbPath] w).
Proof.
  intros Hfile Hopen Hcopy. unfold makeCorruptDBPath, bind.
  rewrite (shaFileID_returns dbPath bytes w Hfile Hopen Hcopy).
  unfold corruptDBPath. destruct (filepath.Split dbPath) as [dbDir dbFile].
  reflexivity.
Qed.

Lemma makeCorruptDBPath_fails (dbPath : string) (w w' : World) (e : error) :
  shaFileID dbPath w = Returns (("", Some e), w') →
  makeCorruptDBPath dbPath w = Returns (("", Some e), w').
Proof. intros Hsha. unfold makeCorruptDBPath, bind. by rewrite Hsha. Qed.

(** The handle is read and closed before anything else is done. *)
Lemma handleCorruptDB_prologue (db : nat) (o : DB tx_data) (w : World) :
  heap w !! db = Some o → db_opened o = true →
  let closed := mkDB (db_path o) (db_readOnly o) false (db_data o) in
  let w_closed :=
    with_heap (<[db := closed]> (heap w))
      (record [EvIsReadOnly; EvPath; EvClose (db_path o)] w) in
  handleCorruptDB db w =
  match io_fault w (EvClose (db_path o)) with
  | Some e => Returns ((None, Some (Errorf "Failed to close db: " e)), w_closed)
  | None =>
      (let* (corruptDBPath, err) := moveCorruptDB (db_path o) in
       match err with
       | Some e => ret (None, Some (Errorf "Failed to copy corrupted db: " e))
       | None => OpenDB (db_path o) (db_readOnly o)
       end) w_closed
  end.
Proof.
  intros Hdb Hopen closed w_closed.
  unfold handleCorruptDB, db_IsReadOnly, db_Path, db_Close. run_go.
  repeat (progress run_go || rewrite Hdb || rewrite Hopen).
  rewrite <- !app_assoc. cbn [app].
  fold closed.
  replace (mkWorld (<[db:=closed]> (heap w)) (fs w) (dirs w) (io_fault w) (polls w)
             (trace w ++ [EvIsReadOnly; EvPath; EvClose (db_path o)]))
    with w_closed by reflexivity.
  destruct (io_fault w (EvClose (db_path o))); reflexivity.
Qed.

Lemma os_Rename_moves (oldpath newpath : string) (bytes : list byte) (w : World) :
  io_fault w (EvOsRename oldpath newpath) = None →
  fs w !! oldpath = Some bytes → filepath.Dir newpath ∈ dirs w →
  os_Rename oldpath newpath w
  = Returns (None, with_fs (<[newpath := bytes]> (delete oldpath (fs w)))
                     (record [EvOsRename oldpath newpath] w)).
Proof.
  intros Hio Hfile Hdir. unfold os_Rename. run_go. rewrite Hio, Hfile.
  destruct (decide (filepath.Dir newpath ∈ dirs w)); [|contradiction]. reflexivity.
Qed.

(** A rename that fails changes no file. *)
Lemma os_Rename_fails (oldpath newpath : string) (bytes : list byte) (w : World) (e : error) :
  fs w !! oldpath = Some bytes →
  io_fault w (EvOsRename oldpath newpath) = Some e ∨
  (io_fault w (EvOsRename oldpath newpath) = None ∧ (filepath.Dir newpath ∉ dirs w) ∧
    e = LinkError "rename" oldpath newpath ENOENT) →
  os_Rename oldpath newpath w = Returns (Some e, record [EvOsRename oldpath newpath] w).
Proof.
  intros Hfile [Hio|(Hio & Hdir & ->)]; unfold os_Rename; run_go; rewrite Hio.
  - reflexivity.
  - rewrite Hfile. destruct (decide (filepath.Dir newpath ∈ dirs w)); [contradiction|].
    reflexivity.
Qed.

Lemma OpenDB_returns (dbFile : string) (readOnly : bool) (w : World) :
  OpenDB dbFile readOnly w =
  let opened := record [EvBoltOpen dbFile readOnly] w in
  match bolt_Open dbFile perm_0600 timeout_500ms readOnly (fs w) with
  | (inl o, fs') =>
      Returns ((Some (fresh (dom (heap w))), None),
               with_heap (<[fresh (dom (heap w)) := o]> (heap w)) (with_fs fs' opened))
  | (inr err, fs') =>
      Returns ((None, Some (Errorf "Open boltdb failed, " err)), with_fs fs' opened)
  end.
Proof.
  unfold OpenDB. run_go. destruct (bolt_Open dbFile perm_0600 timeout_500ms readOnly (fs w)) as [[o|err] fs'];
    reflexivity.
Qed.

End QuarantineProofs.

(** C7.  [handleCorruptDB] on an open handle: it reads the mode and the
    path, then closes the handle, and stops there with an error when the
    close fails.  Otherwise it opens and reads the closed file for its
    fingerprint and renames the file to the quarantine path; when the rename
    fails it stops with an error, no file has changed and no store is
    opened.  When the rename succeeds the bytes are at the quarantine path,
    no file is left at the original path, and it ends with [OpenDB] at the
    original path in the original mode, whose handle or error it returns. *)
Theorem C7_quarantine_steps `{C : Collaborators} (db : nat) (o : DB tx_data) (w : World) :
  heap w !! db = Some o → db_opened o = true →
  let dbPath := db_path o in
  let dbReadOnly := db_readOnly o in
  let w_closed :=
    with_heap (<[db := mkDB dbPath dbReadOnly false (db_data o)]> (heap w))
      (record [EvIsReadOnly; EvPath; EvClose dbPath] w) in
  (∀ e, io_fault w (EvClose dbPath) = Some e →
        handleCorruptDB db w
        = Returns ((None, Some (Errorf "Failed to close db: " e)), w_closed)) ∧
  (∀ bytes,
     io_fault w (EvClose dbPath) = None → fs w !! dbPath = Some bytes →
     io_fault w (EvOsOpen dbPath) = None → io_fault w (EvCopy dbPath) = None →
     let newDBPath := corruptDBPath dbPath bytes in
     let w_renamed :=
       record [EvOsOpen dbPath; EvCopy dbPath; EvFileClose dbPath;
               EvOsRename dbPath newDBPath] w_closed in
     (∀ e, io_fault w (EvOsRename dbPath newDBPath) = Some e ∨
           (io_fault w (EvOsRename dbPath newDBPath) = None ∧
             (filepath.Dir newDBPath ∉ dirs w) ∧
             e = LinkError "rename" dbPath newDBPath ENOENT) →
           handleCorruptDB db w
           = Returns ((None, Some (Errorf "Failed to copy corrupted db: " e)), w_renamed)) ∧
     (io_fault w (EvOsRename dbPath newDBPath) = None →
      filepath.Dir newDBPath ∈ dirs w →
      let quarantined := <[newDBPath := bytes]> (delete dbPath (fs w)) in
      let w_opened := record [EvBoltOpen dbPath dbReadOnly] w_renamed in
      handleCorruptDB db w =
      match bolt_Open dbPath perm_0600 timeout_500ms dbReadOnly quarantined with
      | (inl o_new, fs') =>
          Returns ((Some (fresh (dom (heap w_closed))), None),
                   with_heap (<[fresh (dom (heap w_closed)) := o_new]> (heap w_closed))
                     (with_fs fs' w_opened))
      | (inr err, fs') =>
          Returns ((None, Some (Errorf "Open boltdb failed, " err)), with_fs fs' w_opened)
      end ∧
      quarantined !! newDBPath = Some bytes ∧
      (newDBPath ≠ dbPath → quarantined !! dbPath = None))).
Proof.
  intros Hdb Hopen dbPath dbReadOnly w_closed.
  pose proof (handleCorruptDB_prologue db o w Hdb Hopen) as Hpro. cbv zeta in Hpro.
  fold dbPath dbReadOnly in Hpro. fold w_closed in Hpro.
  split.
  - intros e Hclose. rewrite Hpro, Hclose. reflexivity.
  - intros bytes Hclose Hfile Hio_open Hio_copy newDBPath w_renamed.
    rewrite Hclose in Hpro.
    assert (Hmake : makeCorruptDBPath dbPath w_closed
                    = Returns ((newDBPath, None), record [EvOsOpen dbPath; EvCopy dbPath; EvFileClose dbPath] w_closed))
      by (apply makeCorruptDBPath_returns; assumption).
    split.
    + intros e Hfail. rewrite Hpro. unfold moveCorruptDB, bind. rewrite Hmake.
      erewrite os_Rename_fails; [|exact Hfile|exact Hfail].
      unfold ret. do 2 f_equal. subst w_renamed. rewrite record_record. reflexivity.
    + intros Hio_rename Hdir quarantined w_opened.
      split; [|split; [apply lookup_insert_eq|]].
      2:{ intros Hne. subst quarantined.
          rewrite lookup_insert_ne by exact Hne. apply lookup_delete_eq. }
      rewrite Hpro. unfold moveCorruptDB, bind. rewrite Hmake.
      erewrite os_Rename_moves; [|exact Hio_rename|exact Hfile|exact Hdir].
      unfold ret. rewrite OpenDB_returns. cbv zeta.
      subst quarantined w_opened w_renamed w_closed. unfold_world.
      rewrite <- !app_assoc. cbn [app].
      destruct (bolt_Open dbPath perm_0600 timeout_500ms dbReadOnly _) as [[o_new|err] fs']; reflexivity.
Qed.

Lemma C7_witness :
  observe (handleCorruptDB (C := Toy.collaborators) 1
             (Toy.world Toy.bad_signature (list_byte_of_string "c")))
  = Some ((Some 2%nat, None),
          [EvIsReadOnly; EvPath; EvClose "/data/data.db";
           EvOsOpen "/data/data.db"; EvCopy "/data/data.db";
           EvFileClose "/data/data.db";
           EvOsRename "/data/data.db" "/data/data.db.corrupt.hKUWhBunels";
           EvBoltOpen "/data/data.db" false]).
Proof.
  pose proof (C7_quarantine_steps (C := Toy.collaborators) 1
                (mkDB "/data/data.db" false true Toy.bad_signature)
                (Toy.world Toy.bad_signature (list_byte_of_string "c"))
                eq_refl eq_refl) as (_ & Hsteps).
  specialize (Hsteps (list_byte_of_string "c") eq_refl eq_refl eq_refl eq_refl)
    as (_ & Hopened).
  specialize (Hopened eq_refl ltac:(vm_compute; set_solver)) as (Hopened & _).
  rewrite Hopened. vm_compute. reflexivity.
Defined.

(** C4.  A store file whose only byte is the letter a.  Its fingerprint
    from [shaFileID] is the standard-alphabet encoding [hvfkN/qlp/w], where
    the URL and filename safe encoding of the same eight bytes is
    [hvfkN_qlp_w]; [makeCorruptDBPath] builds
    [/data/data.db.corrupt.hvfkN/qlp/w], a file named [w] two directories
    below the directory of the store; and the rename into that missing
    directory fails, so the quarantine fails. *)
Theorem C4_fingerprint_with_separator :
  let w := Toy.world Toy.bad_signature (list_byte_of_string "a") in
  observe (shaFileID (C := Toy.collaborators) "/data/data.db" w)
    = Some (("hvfkN/qlp/w", None), [EvOsOpen "/data/data.db"; EvCopy "/data/data.db";
            EvFileClose "/data/data.db"]) ∧
  base64.RawURLEncoding_EncodeToString (take 8 (sha1.Sum (list_byte_of_string "a")))
    = "hvfkN_qlp_w" ∧
  fst <$> observe (makeCorruptDBPath (C := Toy.collaborators) "/data/data.db" w)
    = Some ("/data/data.db.corrupt.hvfkN/qlp/w", None) ∧
  filepath.Split "/data/data.db.corrupt.hvfkN/qlp/w"
    = ("/data/data.db.corrupt.hvfkN/qlp/", "w") ∧
  fst <$> observe (handleCorruptDB (C := Toy.collaborators) 1 w)
    = Some (None,
            Some (errorString
                    ("Failed to copy corrupted db: rename /data/data.db " ++
                     "/data/data.db.corrupt.hvfkN/qlp/w: no such file or directory"))).
Proof. cbv zeta. repeat split; vm_compute; reflexivity. Qed.






Example sha1_abc :
  sha1.Sum (list_byte_of_string "abc") =
  [xa9; x99; x3e; x36; x47; x06; x81; x6a; xba; x3e;
   x25; x71; x78; x50; xc2; x6c; x9c; xd0; xd8; x9d].
Proof. vm_compute. reflexivity. Qed.

Example sha1_empty :
  sha1.Sum [] =
  [xda; x39; xa3; xee; x5e; x6b; x4b; x0d; x32; x55;
   xbf; xef; x95; x60; x18; x90; xaf; xd8; x07; x09].
Proof. vm_compute. reflexivity. Qed.

Example clean_examples :
  map filepath.Clean ["/a/b//x"; "a/../b"; "../../a/"; "/../a"; "a/b/../../.."; ""; "/"; "./"; "abc"] =
  ["/a/b/x"; "b"; "../../a"; "/a"; ".."; "."; "/"; "."; "abc"].
Proof. vm_compute. reflexivity. Qed.

Example split_examples :
  map filepath.Split ["/a/b/data.db"; "data.db"; "a/"; ""; "/x"] =
  [("/a/b/", "data.db"); ("", "data.db"); ("a/", ""); ("", ""); ("/", "x")].
Proof. vm_compute. reflexivity. Qed.

Example base64_examples :
  base64.RawStdEncoding_EncodeToString (take 8 (sha1.Sum (list_byte_of_string "a"))) = "hvfkN/qlp/w".
Proof. vm_compute. reflexivity. Qed.

Example clean_go_doc :
  map filepath.Clean ["a/c"; "a//c"; "a/c/."; "a/c/b/.."; "/../a/c"; "/../a/b/../././/c"; ""] =
  ["a/c"; "a/c"; "a/c"; "a/c"; "/a/c"; "/a/c"; "."].
Proof. vm_compute. reflexivity. Qed.

Example join_go_doc :
  map filepath.Join
    [["a"; "b"; "c"]; ["a"; "b/c"]; ["a/b"; "c"]; ["a/b"; "/c"];
     ["a/b"; "../../../xyz"]; [""; ""]; ["a"; ""]; [""; "a"]] =
  ["a/b/c"; "a/b/c"; "a/b/c"; "a/b/c"; "../xyz"; ""; "a"; "a"].
Proof. vm_compute. reflexivity. Qed.

(** * Further properties *)

(** ** The fault tracker *)

Lemma tracker_eq (cb cb' : corruptedBlocks) :
  (∀ x, x ∈ dom (v cb) ↔ x ∈ dom (v cb')) → cb = cb'.
Proof.
  destruct cb as [m], cb' as [m']. cbn. intros Hdom. f_equal. apply map_eq. intros x.
  specialize (Hdom x). rewrite !elem_of_dom in Hdom.
  destruct (m !! x) as [[]|] eqn:Hm, (m' !! x) as [[]|] eqn:Hm'; try reflexivity.
  - destruct Hdom as [Hdom _]. destruct Hdom as [? ?]; [eauto|discriminate].
  - destruct Hdom as [_ Hdom]. destruct Hdom as [? ?]; [eauto|discriminate].
Qed.

(** X1.  The content of a tracker depends on the set of the numbers stored
    only: neither the order of the [Store] calls, which the workers make
    concurrently, nor their repetition changes it. *)
Theorem StoreAll_same_set (cb : corruptedBlocks) (calls calls' : list uint64) :
  (∀ x, x ∈ calls ↔ x ∈ calls') →
  StoreAll cb calls = StoreAll cb calls' ∧
  (∀ seqs, BlockSeqs (StoreAll cb calls) seqs ↔ BlockSeqs (StoreAll cb calls') seqs).
Proof.
  intros Hset.
  assert (Heq : StoreAll cb calls = StoreAll cb calls').
  { apply tracker_eq. intros x. rewrite !StoreAll_dom, Hset. reflexivity. }
  split; [exact Heq|]. intros seqs. by rewrite Heq.
Qed.

Lemma StoreAll_same_set_witness :
  StoreAll newCorruptedBlocks [7; 2; 7; 5] = StoreAll newCorruptedBlocks [5; 2; 2; 7].
Proof.
  apply (StoreAll_same_set newCorruptedBlocks [7; 2; 7; 5] [5; 2; 2; 7]).
  intros x. rewrite !elem_of_cons, !elem_of_nil. tauto.
Defined.

(** X2.  [BlockSeqs] returns as many numbers as distinct numbers were stored,
    never more than there were [Store] calls. *)
Theorem BlockSeqs_length (calls seqs : list uint64) :
  BlockSeqs (StoreAll newCorruptedBlocks calls) seqs →
  length seqs = size (list_to_set calls : gset N) ∧ (length seqs ≤ length calls)%nat.
Proof.
  intros Hret. unfold BlockSeqs in Hret.
  assert (Hnodup : NoDup seqs) by (rewrite Hret; apply BlockSeqs_canonical_NoDup).
  assert (Hmem : ∀ x, x ∈ seqs ↔ x ∈ calls).
  { intros x. rewrite Hret, BlockSeqs_canonical_dom, StoreAll_dom. cbn.
    rewrite dom_empty, elem_of_empty. tauto. }
  split.
  - rewrite <- (size_list_to_set (C := gset N) seqs) by exact Hnodup.
    f_equal. apply set_eq. intros x. rewrite !elem_of_list_to_set. apply Hmem.
  - apply submseteq_length, NoDup_submseteq; [exact Hnodup|]. intros x. apply Hmem.
Qed.

Lemma BlockSeqs_length_witness :
  length [5; 7; 2] = size (list_to_set [7; 2; 7; 2; 5] : gset N).
Proof.
  apply (BlockSeqs_length [7; 2; 7; 2; 5] [5; 7; 2]).
  unfold BlockSeqs.
  replace (BlockSeqs_canonical (StoreAll newCorruptedBlocks [7; 2; 7; 2; 5]))
    with [2; 5; 7] by (vm_compute; reflexivity).
  symmetry. apply (Permutation_cons_app [5; 7] [] 2). apply Permutation_refl.
Defined.

(** ** What the check and the rebuild leave alone *)
Section FrameProofs.

Context `{C : Collaborators}.

Lemma quiet_refl (w : World) : quiet w w.
Proof. unfold quiet. repeat split; try reflexivity. exists []. by rewrite app_nil_r. Qed.

Lemma quiet_trans (w1 w2 w3 : World) : quiet w1 w2 → quiet w2 w3 → quiet w1 w3.
Proof.
  intros (Hh & Hf & Hd & Hi & evs & Ht) (Hh' & Hf' & Hd' & Hi' & evs' & Ht').
  unfold quiet. rewrite Hh', Hf', Hd', Hi', Ht', Ht, Hh, Hf, Hd, Hi.
  repeat split; try reflexivity. exists (evs ++ evs')%list. by rewrite app_assoc.
Qed.

Lemma quiet_record (evs : list event) (w : World) : quiet w (record evs w).
Proof. unfold quiet, record. cbn. repeat split; try reflexivity. by exists evs. Qed.

Lemma quiet_polled (n : nat) (w : World) : quiet w (polled n w).
Proof.
  unfold quiet, polled. cbn. repeat split; try reflexivity. exists []. by rewrite app_nil_r.
Qed.

Lemma quiet_touches_only (db : nat) (w w' : World) : quiet w w' → touches_only db w w'.
Proof.
  intros (Hh & Hf & Hd & Hi & Ht). unfold touches_only. rewrite Hh, Hf. repeat split; auto.
Qed.


Lemma poll_quiet (quit : chan) (w : World) :
  ∃ w', poll quit w = Returns (quit (polls w), w') ∧ quiet w w'.
Proof.
  eexists. split; [reflexivity|]. unfold quiet. cbn. repeat split; try reflexivity.
  by eexists.
Qed.

Lemma rebuild_loop_quiet (bc : Blockchain) (quit : chan) (headSeq : uint64) :
  ∀ (fuel : nat) (i : uint64) (tx : tx_data) (w : World) r w',
    rebuild_loop fuel bc quit headSeq i tx w = Returns (r, w') → quiet w w'.
Proof.
  induction fuel as [|fuel IH]; intros i tx w r w' Hrun; [discriminate|].
  cbn [rebuild_loop] in Hrun.
  destruct (i <=? headSeq).
  2:{ injection Hrun as _ <-. apply quiet_refl. }
  unfold bind in Hrun. destruct (poll_quiet quit w) as (w1 & Hpoll & Hq1).
  rewrite Hpoll in Hrun. destruct (quit (polls w)).
  { injection Hrun as _ <-. exact Hq1. }
  change (emit (EvGetSignedBlockBySeq i) w1)
    with (Returns ((), record [EvGetSignedBlockBySeq i] w1)) in Hrun.
  pose proof (quiet_trans _ _ _ Hq1 (quiet_record [EvGetSignedBlockBySeq i] w1)) as Hq2.
  destruct (bc_GetSignedBlockBySeq bc tx i) as [[sb|] [e|]].
  - injection Hrun as _ <-. exact Hq2.
  - change (emit (EvParseBlock (Block sb)) (record [EvGetSignedBlockBySeq i] w1))
      with (Returns ((), record [EvParseBlock (Block sb)] (record [EvGetSignedBlockBySeq i] w1)))
      in Hrun.
    pose proof (quiet_trans _ _ _ Hq2 (quiet_record [EvParseBlock (Block sb)] _)) as Hq3.
    destruct (history_ParseBlock tx (Block sb)) as [tx' [e|]].
    + injection Hrun as _ <-. exact Hq3.
    + apply IH in Hrun. eapply quiet_trans; eassumption.
  - injection Hrun as _ <-. exact Hq2.
  - discriminate.
Qed.

Lemma rebuild_tx_quiet (fuel : nat) (bc : Blockchain) (quit : chan)
    (tx : tx_data) (w : World) r w' :
  rebuild_tx fuel bc quit tx w = Returns (r, w') → quiet w w'.
Proof.
  unfold rebuild_tx, bind.
  change (emit EvErase w) with (Returns ((), record [EvErase] w)).
  pose proof (quiet_record [EvErase] w) as Hq1.
  destruct (history_Erase tx) as [tx1 [e|]].
  { intros Hrun. injection Hrun as _ <-. exact Hq1. }
  change (emit EvHeadSeq (record [EvErase] w))
    with (Returns ((), record [EvHeadSeq] (record [EvErase] w))).
  pose proof (quiet_trans _ _ _ Hq1 (quiet_record [EvHeadSeq] _)) as Hq2.
  destruct (bc_HeadSeq bc tx1) as [[headSeq ok] [e|]].
  { intros Hrun. injection Hrun as _ <-. exact Hq2. }
  destruct ok; cbn [negb].
  - intros Hrun. apply rebuild_loop_quiet in Hrun. eapply quiet_trans; eassumption.
  - intros Hrun. injection Hrun as _ <-. exact Hq2.
Qed.

(** [db.Update] around a closure that is quiet: the handle keeps its path,
    its mode and its state; its content and the bytes of its file change
    on a commit only. *)
Lemma db_Update_frame (db : nat) (name : string)
    (fn : tx_data → M (tx_data * option error)) (w : World) r w' :
  (∀ tx w1 r1 w2, fn tx w1 = Returns (r1, w2) → quiet w1 w2) →
  db_Update db name fn w = Returns (r, w') →
  touches_only db w w' ∧
  (is_Some r → quiet w w') ∧
  ∃ o o', heap w !! db = Some o ∧ heap w' !! db = Some o' ∧
          db_path o' = db_path o ∧ db_readOnly o' = db_readOnly o ∧
          db_opened o' = db_opened o ∧
          (r = None → fs w' = alter (bolt_pages (db_data o')) (db_path o) (fs w)).
Proof.
  intros Hfn. unfold db_Update. run_go. fold (record [EvUpdate name] w).
  pose proof (quiet_record [EvUpdate name] w) as Hq0.
  destruct (heap w !! db) as [o|] eqn:Hdb; [|discriminate].
  assert (Hsame : ∀ w2 (e : error), quiet w w2 →
            touches_only db w w2 ∧ (is_Some (Some e) → quiet w w2) ∧
            ∃ o1 o', Some o = Some o1 ∧ heap w2 !! db = Some o' ∧
                     db_path o' = db_path o1 ∧ db_readOnly o' = db_readOnly o1 ∧
                     db_opened o' = db_opened o1 ∧
                     (Some e = None → fs w2 = alter (bolt_pages (db_data o')) (db_path o1) (fs w))).
  { intros w2 e Hq. split; [by apply quiet_touches_only|]. split; [done|].
    exists o, o. destruct Hq as (Hh & _). rewrite Hh, Hdb. by repeat split. }
  destruct (db_opened o) eqn:Hopen; cbn [negb].
  2:{ intros Hrun. injection Hrun as <- <-. by apply Hsame. }
  destruct (db_readOnly o) eqn:Hro.
  { intros Hrun. injection Hrun as <- <-. by apply Hsame. }
  destruct (fn (db_data o) (record [EvUpdate name] w)) as [[[tx' err] w1]| |] eqn:Hrun1;
    [|discriminate..].
  apply Hfn in Hrun1. pose proof (quiet_trans _ _ _ Hq0 Hrun1) as Hq1.
  destruct err as [e|].
  { intros Hrun. injection Hrun as <- <-.
    apply Hsame. eapply quiet_trans; [exact Hq1|]. apply (quiet_record [EvRollback]). }
  destruct (io_fault w1 EvCommit) as [e|].
  { intros Hrun. injection Hrun as <- <-.
    apply Hsame. eapply quiet_trans; [exact Hq1|]. apply (quiet_record [EvRollback]). }
  intros Hrun. injection Hrun as <- <-.
  destruct Hq1 as (Hh & Hf & Hd & Hi & evs & Ht). split; [|split].
  - unfold touches_only. cbn. rewrite Hh, Hf, Hd, Hi, Ht. repeat split; try reflexivity.
    + intros p Hp. by rewrite lookup_insert_ne.
    + apply dom_alter_L.
    + intros o'. rewrite lookup_insert_eq. intros Ho' f Hne. injection Ho' as <-.
      cbn in Hne. by rewrite lookup_alter_ne.
    + exists (evs ++ [EvCommit])%list. by rewrite app_assoc.
  - intros [? ?]. discriminate.
  - exists o. eexists. split; [reflexivity|]. cbn. rewrite lookup_insert_eq.
    split; [reflexivity|]. cbn. rewrite Hf. auto.
Qed.

Lemma rebuildCorruptDB_frame
    (fuel db : nat) (bc : Blockchain) (quit : chan) (w w' : World) (r : option error) :
  rebuildCorruptDB fuel db bc quit w = Returns (r, w') →
  touches_only db w w' ∧
  (is_Some r → quiet w w') ∧
  ∃ o o', heap w !! db = Some o ∧ heap w' !! db = Some o' ∧
          db_path o' = db_path o ∧ db_readOnly o' = db_readOnly o ∧
          db_opened o' = db_opened o ∧
          (r = None → fs w' = alter (bolt_pages (db_data o')) (db_path o) (fs w)).
Proof.
  unfold rebuildCorruptDB. apply db_Update_frame.
  intros tx w1 r1 w2. apply rebuild_tx_quiet.
Qed.



End FrameProofs.

(** X3.  A rebuild that returns an error has changed nothing but the
    trace: the transaction was rolled back and the index is the one from
    before the erase.  A rebuild that returns nil has committed: the
    content behind its handle has changed, and the bytes of the file under
    the path of the handle are the pages of that content.  In both cases
    no other handle and no other file has changed, no file was created or
    removed, and the handle keeps its path, its mode and its state. *)
Theorem rebuildCorruptDB_rolls_back `{C : Collaborators}
    (fuel db : nat) (bc : Blockchain) (quit : chan) (w w' : World) (r : option error) :
  rebuildCorruptDB fuel db bc quit w = Returns (r, w') →
  touches_only db w w' ∧
  (is_Some r → quiet w w') ∧
  ∃ o o', heap w !! db = Some o ∧ heap w' !! db = Some o' ∧
          db_path o' = db_path o ∧ db_readOnly o' = db_readOnly o ∧
          db_opened o' = db_opened o ∧
          (r = None → fs w' = alter (bolt_pages (db_data o')) (db_path o) (fs w)).
Proof. apply rebuildCorruptDB_frame. Qed.

Lemma rebuildCorruptDB_rolls_back_witness :
  let w0 := Toy.world Toy.broken_index (list_byte_of_string "c") in
  let run := rebuildCorruptDB (C := Toy.collaborators) 10 1 () Toy.never w0 in
  fst <$> observe run = Some None ∧
  files_after run = Some {[ "/data/data.db" := Toy.pages Toy.healthy ]}.
Proof.
  intros w0 run.
  assert (Hrun : run
                 = Returns (None,
                     mkWorld (<[1%nat := mkDB "/data/data.db" false true Toy.healthy]> (heap w0))
                       (alter (λ _, Toy.pages Toy.healthy) "/data/data.db" (fs w0))
                       (dirs w0) (io_fault w0) 3
                       [EvUpdate "Rebuild history db"; EvErase; EvHeadSeq;
                        EvPollQuit 0; EvGetSignedBlockBySeq 0;
                        EvParseBlock (C := Toy.collaborators) 10;
                        EvPollQuit 1; EvGetSignedBlockBySeq 1;
                        EvParseBlock (C := Toy.collaborators) 11;
                        EvPollQuit 2; EvGetSignedBlockBySeq 2;
                        EvParseBlock (C := Toy.collaborators) 12; EvCommit]))
    by reflexivity.
  pose proof (rebuildCorruptDB_rolls_back (C := Toy.collaborators) 10 1 () Toy.never w0 _ _ Hrun)
    as (_ & _ & o & o' & Ho & Ho' & Hpath & _ & _ & Hfs).
  rewrite Hrun. split; [reflexivity|]. cbn [files_after]. rewrite (Hfs eq_refl).
  injection Ho as <-. injection Ho' as <-. reflexivity.
Defined.



(** ** More on the rebuild *)
Section RebuildEdges.

Context `{C : Collaborators}.
Variables (bc : Blockchain) (quit : chan).

(** The closure of the rebuild after [n] steps that went well, at the
    step for sequence number [n]. *)
Lemma rebuild_tx_at_step (fuel : nat) (tx tx1 txn : tx_data) (headSeq : uint64)
    (n : nat) (evs : list event) (w : World) :
  history_Erase tx = (tx1, None) →
  bc_HeadSeq bc tx1 = (headSeq, true, None) →
  headSeq < uint64_modulus - 1 → (N.to_nat headSeq + 1 < fuel)%nat →
  (n ≤ N.to_nat headSeq)%nat →
  replay bc (polls w) (uint_range 0 n) tx1 = Some (txn, evs) →
  (∀ j, (j < n)%nat → quit (polls w + j)%nat = false) →
  rebuild_tx fuel bc quit tx w
  = rebuild_each bc quit (uint_range (N.of_nat n) (S (N.to_nat headSeq) - n)) txn
      (polled n (record ([EvErase; EvHeadSeq] ++ evs) w)).
Proof.
  intros Herase Hhead Hbound Hfuel Hn Hrep Hquiet.
  rewrite rebuild_tx_refines by (rewrite Herase; cbn [fst]; rewrite Hhead; cbn [fst]; assumption).
  unfold rebuild_tx_spec. run_go. rewrite Herase. run_go. rewrite Hhead.
  replace (S (N.to_nat headSeq)) with (n + (S (N.to_nat headSeq) - n))%nat at 1 by lia.
  rewrite uint_range_app, N.add_0_l.
  erewrite rebuild_each_app; [|exact Hrep|by rewrite uint_range_length].
  rewrite uint_range_length. f_equal.
  unfold polled, record. cbn. f_equal. by rewrite <- !app_assoc.
Qed.

End RebuildEdges.

(** X5.  When the head is the largest [uint64], the test [i <= headSeq] of the
    loop holds for every [i] and [i++] wraps to 0: on a chain that has a
    block at every sequence number, with no cancellation, the rebuild does
    not return, however long it runs. *)
Theorem rebuildCorruptDB_max_head_never_returns `{C : Collaborators}
    (bc : Blockchain) (quit : chan) (db : nat) (o : DB tx_data) (w : World)
    (tx1 : tx_data) (I : tx_data → Prop) :
  heap w !! db = Some o → db_opened o = true → db_readOnly o = false →
  history_Erase (db_data o) = (tx1, None) →
  bc_HeadSeq bc tx1 = (uint64_modulus - 1, true, None) →
  (∀ k, quit k = false) →
  I tx1 →
  (∀ tx i, I tx → ∃ sb tx', bc_GetSignedBlockBySeq bc tx i = (Some sb, None) ∧
                            history_ParseBlock tx (Block sb) = (tx', None) ∧ I tx') →
  ∀ fuel, rebuildCorruptDB fuel db bc quit w = OutOfFuel.
Proof.
  intros Hdb Hopen Hrw Herase Hhead Hquit Htx1 Hstep fuel.
  unfold rebuildCorruptDB, db_Update. run_go. rewrite Hdb, Hopen, Hrw. cbn [negb].
  unfold rebuild_tx. run_go. rewrite Herase. run_go. rewrite Hhead. cbn [negb].
  rewrite (rebuild_loop_never_leaves bc quit I); try assumption; [reflexivity|].
  unfold uint64_modulus. lia.
Qed.

Lemma rebuildCorruptDB_max_head_never_returns_witness :
  rebuildCorruptDB (C := Sparse.collaborators) 1000 1 () (λ _, false)
    (Sparse.world (Sparse.mkStore (uint64_modulus - 1) [] [] [])) = OutOfFuel.
Proof.
  apply (rebuildCorruptDB_max_head_never_returns (C := Sparse.collaborators) () (λ _, false) 1
           (mkDB "/data/data.db" false true (Sparse.mkStore (uint64_modulus - 1) [] [] []))
           (Sparse.world (Sparse.mkStore (uint64_modulus - 1) [] [] []))
           (Sparse.mkStore (uint64_modulus - 1) [] [] [])
           (λ t, Sparse.missing t = [] ∧ Sparse.unreadable t = [])).
  - reflexivity.
  - reflexivity.
  - reflexivity.
  - reflexivity.
  - reflexivity.
  - reflexivity.
  - split; reflexivity.
  - intros [h m u ix] i [Hm Hu]. cbn in Hm, Hu. subst m u.
    exists (mkSignedBlock i ()), (Sparse.mkStore h [] [] (i :: ix)). repeat split.
Defined.

(** X6.  A fetch that finds no block and reports no error: the closure reads
    the [Block] field through the nil pointer and the rebuild panics.  The
    steps before it went well and no poll found the channel signaled. *)
Theorem rebuildCorruptDB_nil_block_panics `{C : Collaborators}
    (bc : Blockchain) (quit : chan) (fuel db : nat) (o : DB tx_data) (w : World)
    (tx1 txn : tx_data) (headSeq : uint64) (n : nat) (evs : list event) :
  heap w !! db = Some o → db_opened o = true → db_readOnly o = false →
  history_Erase (db_data o) = (tx1, None) →
  bc_HeadSeq bc tx1 = (headSeq, true, None) →
  headSeq < uint64_modulus - 1 → (N.to_nat headSeq + 1 < fuel)%nat →
  (n ≤ N.to_nat headSeq)%nat →
  replay bc (polls w) (uint_range 0 n) tx1 = Some (txn, evs) →
  (∀ j, (j ≤ n)%nat → quit (polls w + j)%nat = false) →
  bc_GetSignedBlockBySeq bc txn (N.of_nat n) = (None, None) →
  rebuildCorruptDB fuel db bc quit w = Panics.
Proof.
  intros Hdb Hopen Hrw Herase Hhead Hbound Hfuel Hn Hrep Hquiet Hget.
  unfold rebuildCorruptDB, db_Update. run_go. rewrite Hdb, Hopen, Hrw. cbn [negb].
  fold (record [EvUpdate "Rebuild history db"] w).
  rewrite (rebuild_tx_at_step bc quit fuel (db_data o) tx1 txn headSeq n evs) by
    (try assumption; intros j Hj; apply Hquiet; lia).
  destruct (S (N.to_nat headSeq) - n)%nat as [|m] eqn:Hm; [lia|].
  cbn [uint_range rebuild_each]. unfold polled, record. run_go.
  rewrite Hquiet by lia. rewrite Hget. reflexivity.
Qed.

Lemma rebuildCorruptDB_nil_block_panics_witness :
  rebuildCorruptDB (C := Sparse.collaborators) 10 1 () (λ _, false)
    (Sparse.world (Sparse.mkStore 3 [1] [] [7])) = Panics.
Proof.
  apply (rebuildCorruptDB_nil_block_panics (C := Sparse.collaborators) () (λ _, false) 10 1
           (mkDB "/data/data.db" false true (Sparse.mkStore 3 [1] [] [7]))
           (Sparse.world (Sparse.mkStore 3 [1] [] [7]))
           (Sparse.mkStore 3 [1] [] []) (Sparse.mkStore 3 [1] [] [0]) 3 1
           [EvPollQuit 0; EvGetSignedBlockBySeq 0; EvParseBlock (C := Sparse.collaborators) 0]);
    try reflexivity; vm_compute; lia.
Defined.

(** X7.  A fetch or a parse that fails at some step, after steps that went
    well: the rebuild returns that error, the transaction is rolled back,
    and the handle holds the content from before the rebuild. *)
Theorem rebuildCorruptDB_step_error `{C : Collaborators}
    (bc : Blockchain) (quit : chan) (fuel db : nat) (o : DB tx_data) (w : World)
    (tx1 txn : tx_data) (headSeq : uint64) (n : nat) (evs : list event) (e : error) :
  heap w !! db = Some o → db_opened o = true → db_readOnly o = false →
  history_Erase (db_data o) = (tx1, None) →
  bc_HeadSeq bc tx1 = (headSeq, true, None) →
  headSeq < uint64_modulus - 1 → (N.to_nat headSeq + 1 < fuel)%nat →
  (n ≤ N.to_nat headSeq)%nat →
  replay bc (polls w) (uint_range 0 n) tx1 = Some (txn, evs) →
  (∀ j, (j ≤ n)%nat → quit (polls w + j)%nat = false) →
  let before :=
    ([EvUpdate "Rebuild history db"; EvErase; EvHeadSeq] ++ evs ++
     [EvPollQuit (polls w + n); EvGetSignedBlockBySeq (N.of_nat n)])%list in
  (∀ b, bc_GetSignedBlockBySeq bc txn (N.of_nat n) = (b, Some e) →
        rebuildCorruptDB fuel db bc quit w
        = Returns (Some e, polled (S n) (record (before ++ [EvRollback])%list w))) ∧
  (∀ sb tx', bc_GetSignedBlockBySeq bc txn (N.of_nat n) = (Some sb, None) →
             history_ParseBlock txn (Block sb) = (tx', Some e) →
             rebuildCorruptDB fuel db bc quit w
             = Returns (Some e,
                        polled (S n)
                          (record (before ++ [EvParseBlock (Block sb); EvRollback])%list w))).
Proof.
  intros Hdb Hopen Hrw Herase Hhead Hbound Hfuel Hn Hrep Hquiet before.
  assert (Hat : rebuild_tx fuel bc quit (db_data o) (record [EvUpdate "Rebuild history db"] w)
                = rebuild_each bc quit (uint_range (N.of_nat n) (S (N.to_nat headSeq) - n)) txn
                    (polled n (record ([EvErase; EvHeadSeq] ++ evs)
                                 (record [EvUpdate "Rebuild history db"] w)))).
  { apply (rebuild_tx_at_step bc quit fuel (db_data o) tx1 txn headSeq n evs);
      try assumption. intros j Hj. apply Hquiet. lia. }
  destruct (S (N.to_nat headSeq) - n)%nat as [|m] eqn:Hm; [lia|].
  cbn [uint_range rebuild_each] in Hat.
  split.
  - intros b Hget. unfold rebuildCorruptDB.
    erewrite db_Update_rollback; [|exact Hdb|exact Hopen|exact Hrw|].
    2:{ rewrite Hat. unfold polled, record. run_go. rewrite Hquiet by lia. rewrite Hget.
        destruct b; reflexivity. }
    f_equal. f_equal. subst before. unfold polled, record. cbn. f_equal; [lia|].
    rewrite <- !app_assoc. reflexivity.
  - intros sb tx' Hget Hparse. unfold rebuildCorruptDB.
    erewrite db_Update_rollback; [|exact Hdb|exact Hopen|exact Hrw|].
    2:{ rewrite Hat. unfold polled, record. run_go. rewrite Hquiet by lia. rewrite Hget.
        run_go. rewrite Hparse. reflexivity. }
    f_equal. f_equal. subst before. unfold polled, record. cbn. f_equal; [lia|].
    rewrite <- !app_assoc. reflexivity.
Qed.

Lemma rebuildCorruptDB_step_error_witness :
  let w0 := Sparse.world (Sparse.mkStore 3 [] [2] [7]) in
  observe (rebuildCorruptDB (C := Sparse.collaborators) 10 1 () (λ _, false) w0)
  = Some (Some (errorString "read failed"),
          [EvUpdate "Rebuild history db"; EvErase; EvHeadSeq;
           EvPollQuit 0; EvGetSignedBlockBySeq 0; EvParseBlock (C := Sparse.collaborators) 0;
           EvPollQuit 1; EvGetSignedBlockBySeq 1; EvParseBlock (C := Sparse.collaborators) 1;
           EvPollQuit 2; EvGetSignedBlockBySeq 2; EvRollback]) ∧
  stored 1 (rebuildCorruptDB (C := Sparse.collaborators) 10 1 () (λ _, false) w0)
  = Some (Sparse.mkStore 3 [] [2] [7]).
Proof.
  intros w0.
  pose proof (rebuildCorruptDB_step_error (C := Sparse.collaborators) () (λ _, false) 10 1
                (mkDB "/data/data.db" false true (Sparse.mkStore 3 [] [2] [7])) w0
                (Sparse.mkStore 3 [] [2] []) (Sparse.mkStore 3 [] [2] [1; 0]) 3 2
                [EvPollQuit 0; EvGetSignedBlockBySeq 0; EvParseBlock (C := Sparse.collaborators) 0;
                 EvPollQuit 1; EvGetSignedBlockBySeq 1; EvParseBlock (C := Sparse.collaborators) 1]
                (errorString "read failed")
                eq_refl eq_refl eq_refl eq_refl eq_refl eq_refl
                ltac:(vm_compute; lia) ltac:(vm_compute; lia) eq_refl
                ltac:(reflexivity)) as (Hfetch & _).
  rewrite (Hfetch None eq_refl). split; reflexivity.
Defined.

(** ** More on [CheckDatabase] *)

(** X8.  When the blockchain cannot be constructed, [CheckDatabase] returns the
    error of [NewBlockchain] as it is; the chain is not walked and nothing
    is rebuilt. *)
Theorem CheckDatabase_NewBlockchain_error `{C : Collaborators}
    (fuel db : nat) (pubkey : cipher_PubKey) (quit : chan)
    (w : World) (o o' : DB tx_data) (err : error) :
  heap w !! db = Some o → db_opened o = true →
  dbutil_Exists (db_data o) BlocksBkt = true →
  NewBlockchain o pubkey = (inr err, o') →
  CheckDatabase fuel db pubkey quit w
  = Returns (Some err,
             with_heap (<[db := o']> (heap w))
               (record [EvView "CheckDatabase"; EvNewBlockchain] w)).
Proof.
  intros Hdb Hopen Hbkt Hnew. unfold CheckDatabase, db_View. run_go.
  rewrite Hdb, Hopen. run_go. rewrite Hbkt. unfold default, id. cbn [negb]. run_go.
  rewrite Hdb, Hnew. run_go. unfold with_heap, record. cbn.
  by rewrite <- app_assoc.
Qed.

Lemma CheckDatabase_NewBlockchain_error_witness :
  observe (CheckDatabase (C := Sparse.collaborators) 10 1 false (λ _, false)
             (Sparse.world (Sparse.mkStore 3 [] [] [])))
  = Some (Some (errorString "invalid public key"),
          [EvView "CheckDatabase"; EvNewBlockchain]).
Proof.
  rewrite (CheckDatabase_NewBlockchain_error (C := Sparse.collaborators) 10 1 false (λ _, false)
             (Sparse.world (Sparse.mkStore 3 [] [] []))
             (mkDB "/data/data.db" false true (Sparse.mkStore 3 [] [] []))
             (mkDB "/data/data.db" false true (Sparse.mkStore 3 [] [] []))
             (errorString "invalid public key") eq_refl eq_refl eq_refl eq_refl).
  reflexivity.
Defined.

(** ** More on the goroutine of the repair branch *)

(** X9.  The [select] takes its [default] branch only after a panic: in
    every interleaving of the caller with the goroutine, when the caller
    is at the [select] and the channel is empty, the rebuild has panicked;
    and when the rebuild panics, the caller can return nil through
    [default] while the program still runs.  When the rebuild returns or
    panics the two goroutines never block each other: in every state
    that can be reached one of them can move, until the caller has
    returned and the goroutine has exited, or the panic has ended the
    program. *)
Theorem select_default_only_after_panic `{C : Collaborators}
    (rebuild : M (option error)) (w0 : World) (s : Await.state) :
  rtc (Await.step rebuild) (Await.initial w0) s →
  (Await.main s = Await.AtSelect → Await.errC s = [] → rebuild w0 = Panics) ∧
  (rebuild w0 = Panics →
   rtc (Await.step rebuild) (Await.initial w0)
     (Await.mkState w0 0 [] (Await.Returned None) Await.Dying)) ∧
  ((∃ r w', rebuild w0 = Returns (r, w')) ∨ rebuild w0 = Panics →
   (∃ r, Await.main s = Await.Returned r ∧ Await.worker s = Await.Exited) ∨
   Await.worker s = Await.Crashed ∨
   ∃ s', Await.step rebuild s s').
Proof.
  intros Hrtc. split; [|split].
  - by apply (select_empty_is_panic rebuild w0).
  - apply panic_reaches_default.
  - by apply (reachable_progress rebuild w0).
Qed.

Lemma select_default_only_after_panic_witness :
  let rebuild := rebuildCorruptDB (C := Sparse.collaborators) 10 1 () (λ _, false) in
  let w0 := Sparse.world (Sparse.mkStore 2 [1] [] [7]) in
  rtc (Await.step rebuild) (Await.initial w0)
    (Await.mkState w0 0 [] (Await.Returned None) Await.Dying).
Proof.
  intros rebuild w0.
  destruct (select_default_only_after_panic rebuild w0 (Await.initial w0) (rtc_refl _ _))
    as (_ & Hdefault & _).
  apply Hdefault. vm_compute. reflexivity.
Defined.

(** ** More on [path/filepath] *)
Section FilepathMore.

Import filepath.

Lemma elements_single (name : string) : has_sep name = false → elements name = [name].
Proof.
  induction name as [|c r IH]; [reflexivity|]. cbn. intros Hname.
  apply orb_false_iff in Hname as [Hc Hr]. by rewrite Hc, (IH Hr).
Qed.

Lemma elements_have_no_sep (path : string) :
  Forall (λ e, has_sep e = false) (elements path).
Proof.
  induction path as [|c r IH]; cbn.
  - by repeat constructor.
  - destruct (is_sep c) eqn:Hc; [by constructor|].
    destruct (elements r) as [|e es].
    { constructor; [cbn; by rewrite Hc|constructor]. }
    apply Forall_cons in IH as [He Hes]. constructor; [|exact Hes].
    cbn. by rewrite Hc, He.
Qed.

Lemma settled_nil (rooted : bool) : settled rooted [].
Proof. exists [], 0%nat. by repeat split. Qed.

Lemma plain_dotdot : plain ".." = false.
Proof. reflexivity. Qed.

Lemma clean_step_settled (rooted : bool) (out : list string) (e : string) :
  has_sep e = false → settled rooted out → settled rooted (clean_step rooted out e).
Proof.
  intros He (ps & n & -> & Hps & Hn). unfold clean_step.
  destruct (String.eqb e "") eqn:E1; [by exists ps, n|].
  destruct (String.eqb e ".") eqn:E2; [by exists ps, n|].
  destruct (String.eqb e "..") eqn:E3.
  - apply String.eqb_eq in E3 as ->.
    destruct ps as [|p ps]; cbn [app].
    + destruct n as [|n]; cbn [repeat].
      * destruct rooted; [apply settled_nil|]. exists [], 1%nat. by repeat split.
      * exists [], (S (S n)). repeat split; [done|]. intros Hr. by specialize (Hn Hr).
    + apply Forall_cons in Hps as [[Hp _] Hps].
      destruct (String.eqb p "..") eqn:Ep.
      * apply String.eqb_eq in Ep as ->. by rewrite plain_dotdot in Hp.
      * by exists ps, n.
  - exists (e :: ps), n. repeat split; [|done].
    constructor; [|exact Hps]. split; [|exact He].
    unfold plain. by rewrite E1, E2, E3.
Qed.

Lemma foldl_clean_settled (rooted : bool) (es : list string) : ∀ out,
  Forall (λ e, has_sep e = false) es → settled rooted out →
  settled rooted (foldl (clean_step rooted) out es).
Proof.
  induction es as [|e es IH]; intros out Hes Hout; [exact Hout|].
  apply Forall_cons in Hes as [He Hes]. cbn [foldl].
  apply IH; [exact Hes|]. by apply clean_step_settled.
Qed.

Lemma foldl_clean_dotdots (n : nat) : ∀ k,
  foldl (clean_step false) (repeat ".." k) (repeat ".." n) = repeat ".." (n + k).
Proof.
  induction n as [|n IH]; intros k; [reflexivity|].
  cbn [repeat foldl]. replace (clean_step false (repeat ".." k) "..") with (repeat ".." (S k)).
  - rewrite IH. f_equal. lia.
  - destruct k; reflexivity.
Qed.

(** Cleaning what [Clean] has kept gives it back. *)
Lemma foldl_clean_again (rooted : bool) (out : list string) :
  settled rooted out → foldl (clean_step rooted) [] (rev out) = out.
Proof.
  intros (ps & n & -> & Hps & Hn).
  rewrite rev_app_distr, foldl_app.
  assert (Hdots : foldl (clean_step rooted) [] (rev (repeat ".." n)) = repeat ".." n).
  { destruct rooted.
    - rewrite (Hn eq_refl). reflexivity.
    - rewrite rev_repeat. pose proof (foldl_clean_dotdots n 0) as H.
      rewrite Nat.add_0_r in H. exact H. }
  rewrite Hdots, foldl_clean_plain.
  - by rewrite rev_involutive.
  - apply forallb_forall. intros e He. apply in_rev in He.
    apply list_elem_of_In in He. rewrite Forall_forall in Hps. by apply Hps.
Qed.

Lemma settled_no_sep (rooted : bool) (out : list string) :
  settled rooted out → Forall (λ e, e ≠ "" ∧ has_sep e = false) out.
Proof.
  intros (ps & n & -> & Hps & _). apply Forall_app. split.
  - eapply Forall_impl; [exact Hps|]. intros e [Hp He]. split; [|exact He].
    intros ->. discriminate.
  - apply Forall_forall. intros e He. apply list_elem_of_In, repeat_spec in He as ->.
    by split.
Qed.

Lemma elements_of_prefix (es : list string) :
  Forall (λ e, has_sep e = false) es →
  elements (foldr (λ e acc, e ++ String Separator acc) "" es) = (es ++ [""])%list.
Proof.
  induction es as [|e es IH]; intros Hes; [reflexivity|].
  apply Forall_cons in Hes as [He Hes]. cbn [foldr].
  rewrite elements_app_sep, (elements_single e He), (IH Hes). reflexivity.
Qed.

Lemma Clean_cons (c : ascii) (r : string) :
  Clean (String c r) =
  if is_sep c
  then String Separator
         (join_sep (rev (foldl (clean_step true) [] (elements (String c r)))))
  else match rev (foldl (clean_step false) [] (elements (String c r))) with
       | [] => "."
       | _ => join_sep (rev (foldl (clean_step false) [] (elements (String c r))))
       end.
Proof. unfold Clean. destruct (is_sep c); reflexivity. Qed.

Lemma cleaned_prefix_cons (c : ascii) (r : string) :
  cleaned_prefix (String c r) =
  if is_sep c
  then String Separator
         (foldr (λ e acc, e ++ String Separator acc) ""
            (rev (foldl (clean_step true) [] (elements (String c r)))))
  else foldr (λ e acc, e ++ String Separator acc) ""
         (rev (foldl (clean_step false) [] (elements (String c r)))).
Proof. unfold cleaned_prefix. destruct (is_sep c); reflexivity. Qed.

(** Cleaning the kept elements, written out with a separator after each,
    keeps them. *)
Lemma clean_prefix_elements (rooted : bool) (st : list string) :
  settled rooted st →
  rev (foldl (clean_step rooted) []
         (elements (foldr (λ e acc, e ++ String Separator acc) "" (rev st))))
  = rev st.
Proof.
  intros Hst.
  assert (Hout : Forall (λ e, has_sep e = false) (rev st)).
  { apply Forall_rev. eapply Forall_impl; [exact (settled_no_sep _ _ Hst)|]. by intros e [_ ?]. }
  rewrite (elements_of_prefix _ Hout), foldl_app. cbn [foldl].
  rewrite (foldl_clean_again _ _ Hst). reflexivity.
Qed.

(** [Clean] of the prefix that [Clean] puts before a name is [Clean] of
    the directory. *)
Lemma Clean_cleaned_prefix (dir : string) : Clean (cleaned_prefix dir) = Clean dir.
Proof.
  destruct dir as [|c d]; [reflexivity|].
  rewrite cleaned_prefix_cons, (Clean_cons c d).
  destruct (is_sep c) eqn:Hc.
  - pose proof (foldl_clean_settled true (elements (String c d)) []
                  (elements_have_no_sep _) (settled_nil _)) as Hst.
    set (st := foldl (clean_step true) [] (elements (String c d))) in *.
    rewrite Clean_cons. change (is_sep Separator) with true. cbv iota.
    change (elements (String Separator ?x)) with ("" :: elements x).
    cbn [foldl]. change (clean_step true [] "") with (@nil string).
    by rewrite (clean_prefix_elements true st Hst).
  - pose proof (foldl_clean_settled false (elements (String c d)) []
                  (elements_have_no_sep _) (settled_nil _)) as Hst.
    set (st := foldl (clean_step false) [] (elements (String c d))) in *.
    pose proof (clean_prefix_elements false st Hst) as Hagain.
    pose proof (settled_no_sep _ _ Hst) as Hne.
    destruct (rev st) as [|e1 out'] eqn:Hrev; [reflexivity|].
    assert (He1 : e1 ≠ "" ∧ has_sep e1 = false).
    { assert (Hin : e1 ∈ st).
      { apply list_elem_of_In, in_rev. rewrite Hrev. by left. }
      rewrite Forall_forall in Hne. by apply Hne. }
    destruct He1 as [Hne1 Hsep1]. destruct e1 as [|c1 e1]; [done|].
    cbn in Hsep1. apply orb_false_iff in Hsep1 as [Hc1 Hsep1].
    set (p := foldr _ _ _) in *.
    assert (Hp : p = String c1 (e1 ++ String Separator
                   (foldr (λ e acc, e ++ String Separator acc) "" out'))) by reflexivity.
    rewrite Hp at 1. rewrite Clean_cons, Hc1. rewrite <- Hp, Hagain. reflexivity.
Qed.

Lemma string_app_assoc (a b c : string) : (a ++ b) ++ c = a ++ (b ++ c).
Proof.
  induction a as [|x a IH]; [reflexivity|].
  change (String x (a ++ b) ++ c = String x (a ++ (b ++ c))).
  change (String x ((a ++ b) ++ c) = String x (a ++ (b ++ c))). by rewrite IH.
Qed.

Lemma Split_no_sep (name : string) : has_sep name = false → Split name = ("", name).
Proof.
  destruct name as [|c r]; [reflexivity|]. cbn. intros Hname.
  apply orb_false_iff in Hname as [Hc Hr]. by rewrite Hr, Hc.
Qed.

Lemma Split_after_sep (q name : string) :
  has_sep name = false →
  Split (q ++ String Separator name) = (q ++ String Separator "", name).
Proof.
  intros Hname. induction q as [|c q IH].
  - change (Split (String Separator name) = (String Separator "", name)).
    cbn. by rewrite Hname.
  - change (Split (String c (q ++ String Separator name))
            = (String c (q ++ String Separator ""), name)).
    cbn [Split]. rewrite has_sep_app. cbn [has_sep]. change (is_sep Separator) with true.
    rewrite orb_true_r, IH. reflexivity.
Qed.

Lemma prefix_shape (es : list string) :
  foldr (λ e acc, e ++ String Separator acc) "" es = "" ∨
  ∃ q, foldr (λ e acc, e ++ String Separator acc) "" es = q ++ String Separator "".
Proof.
  induction es as [|e es IH]; [by left|]. right. cbn [foldr].
  destruct IH as [->|[q ->]].
  - by exists e.
  - exists (e ++ String Separator q). by rewrite string_app_assoc.
Qed.

Lemma cleaned_prefix_shape (dir : string) :
  cleaned_prefix dir = "" ∨ ∃ q, cleaned_prefix dir = q ++ String Separator "".
Proof.
  destruct dir as [|c d]; [by left|]. rewrite cleaned_prefix_cons.
  destruct (is_sep c).
  - right. destruct (prefix_shape (rev (foldl (clean_step true) [] (elements (String c d)))))
      as [->|[q ->]].
    + by exists "".
    + by exists (String Separator q).
  - apply prefix_shape.
Qed.

(** A name without separator after the prefix: [Split] gives them back. *)
Lemma Split_cleaned_prefix (dir name : string) :
  has_sep name = false →
  Split (cleaned_prefix dir ++ name) = (cleaned_prefix dir, name).
Proof.
  intros Hname. destruct (cleaned_prefix_shape dir) as [->|[q ->]].
  - by apply Split_no_sep.
  - rewrite string_app_assoc. change (String Separator "" ++ name) with (String Separator name).
    by apply Split_after_sep.
Qed.

End FilepathMore.

(** ** More on the quarantine *)

Lemma corruptDBPath_shape (dbPath : string) (bytes : list byte) :
  filepath.has_sep (fingerprint bytes) = false →
  let dbDir := (filepath.Split dbPath).1 in
  let dbFile := (filepath.Split dbPath).2 in
  let name := dbFile ++ ".corrupt." ++ fingerprint bytes in
  corruptDBPath dbPath bytes = filepath.cleaned_prefix dbDir ++ name ∧
  filepath.Split (corruptDBPath dbPath bytes) = (filepath.cleaned_prefix dbDir, name) ∧
  filepath.Dir (corruptDBPath dbPath bytes) = filepath.Dir dbPath.
Proof.
  intros Hfp dbDir dbFile name.
  assert (Hname : filepath.has_sep name = false).
  { subst name. rewrite !has_sep_app, Hfp. subst dbFile. by rewrite Split_snd_no_sep. }
  assert (Hpath : corruptDBPath dbPath bytes = filepath.cleaned_prefix dbDir ++ name).
  { unfold corruptDBPath. apply Join_dir_plain. apply corrupt_name_plain.
    - apply Split_snd_no_sep.
    - by apply plain_tail_no_sep. }
  split; [exact Hpath|]. rewrite Hpath.
  rewrite (Split_cleaned_prefix dbDir name Hname). split; [reflexivity|].
  unfold filepath.Dir. rewrite (Split_cleaned_prefix dbDir name Hname). cbn [fst].
  apply Clean_cleaned_prefix.
Qed.

(** X10.  When the fingerprint has no separator, the quarantine path is the
    cleaned directory of the store, then [<file>.corrupt.<fingerprint>]:
    [filepath.Split] gives that name as its file, and the quarantine file
    is in the directory of the store. *)
Theorem corruptDBPath_same_directory (dbPath : string) (bytes : list byte) :
  filepath.has_sep (fingerprint bytes) = false →
  let dbDir := (filepath.Split dbPath).1 in
  let dbFile := (filepath.Split dbPath).2 in
  let name := dbFile ++ ".corrupt." ++ fingerprint bytes in
  corruptDBPath dbPath bytes = filepath.cleaned_prefix dbDir ++ name ∧
  filepath.Split (corruptDBPath dbPath bytes) = (filepath.cleaned_prefix dbDir, name) ∧
  filepath.Dir (corruptDBPath dbPath bytes) = filepath.Dir dbPath.
Proof. apply corruptDBPath_shape. Qed.

Lemma corruptDBPath_same_directory_witness :
  filepath.Dir (corruptDBPath "/var//lib/../skycoin/./data.db" (list_byte_of_string "c"))
  = filepath.Dir "/var//lib/../skycoin/./data.db" ∧
  corruptDBPath "/var//lib/../skycoin/./data.db" (list_byte_of_string "c")
  = "/var/skycoin/data.db.corrupt.hKUWhBunels".
Proof.
  destruct (corruptDBPath_same_directory "/var//lib/../skycoin/./data.db"
              (list_byte_of_string "c") ltac:(vm_compute; reflexivity)) as (Hpath & _ & Hdir).
  split; [exact Hdir|]. rewrite Hpath. vm_compute. reflexivity.
Defined.


Section QuarantineMore.

Context `{C : Collaborators}.

(** Every run of [shaFileID]. *)
Lemma shaFileID_cases (dbPath : string) (w : World) :
  (∃ e, shaFileID dbPath w = Returns (("", Some e), record [EvOsOpen dbPath] w)) ∨
  (∃ e, (is_Some (fs w !! dbPath) ∨ dbPath ∈ dirs w) ∧
        shaFileID dbPath w
        = Returns (("", Some e),
                   record [EvOsOpen dbPath; EvCopy dbPath; EvFileClose dbPath] w)) ∨
  (∃ bytes, fs w !! dbPath = Some bytes ∧
            shaFileID dbPath w
            = Returns ((fingerprint bytes, None),
                       record [EvOsOpen dbPath; EvCopy dbPath; EvFileClose dbPath] w)).
Proof.
  destruct (io_fault w (EvOsOpen dbPath)) as [e|] eqn:Hopen.
  { left. exists e. apply shaFileID_open_fails. by rewrite Hopen. }
  destruct (fs w !! dbPath) as [bytes|] eqn:Hfile.
  2:{ destruct (decide (dbPath ∈ dirs w)) as [Hdir|Hdir].
      - right. left. eexists. split; [by right|]. by apply shaFileID_directory.
      - left. eexists. apply shaFileID_open_fails. by rewrite Hopen. }
  destruct (io_fault w (EvCopy dbPath)) as [e|] eqn:Hcopy.
  - right. left. exists e. split; [left; by eexists|]. by eapply shaFileID_copy_fails.
  - right. right. exists bytes. split; [reflexivity|]. by apply shaFileID_returns.
Qed.

(** Every run of [moveCorruptDB]: an error with an empty name in a world
    where nothing but the trace has changed, or the quarantine name in a
    world where the bytes have moved to it. *)
Lemma moveCorruptDB_cases (dbPath : string) (w : World) :
  (∃ e w', moveCorruptDB dbPath w = Returns (("", Some e), w') ∧ quiet w w' ∧
           polls w' = polls w) ∨
  (∃ bytes, fs w !! dbPath = Some bytes ∧
            moveCorruptDB dbPath w
            = Returns ((corruptDBPath dbPath bytes, None),
                       with_fs (<[corruptDBPath dbPath bytes := bytes]> (delete dbPath (fs w)))
                         (record [EvOsOpen dbPath; EvCopy dbPath; EvFileClose dbPath;
                                  EvOsRename dbPath (corruptDBPath dbPath bytes)] w))).
Proof.
  unfold moveCorruptDB, makeCorruptDBPath, bind.
  destruct (shaFileID_cases dbPath w) as [[e ->]|[(e & _ & ->)|(bytes & Hfile & ->)]].
  - left. eexists _, _. split; [reflexivity|]. split; [apply quiet_record|reflexivity].
  - left. eexists _, _. split; [reflexivity|]. split; [apply quiet_record|reflexivity].
  - destruct (filepath.Split dbPath) as [dbDir dbFile] eqn:Hsplit.
    assert (Hname : filepath.Join [dbDir; dbFile ++ ".corrupt." ++ fingerprint bytes]
                    = corruptDBPath dbPath bytes).
    { unfold corruptDBPath. by rewrite Hsplit. }
    unfold ret. rewrite Hname. set (name := corruptDBPath dbPath bytes).
    set (w1 := record [EvOsOpen dbPath; EvCopy dbPath; EvFileClose dbPath] w).
    destruct (io_fault w (EvOsRename dbPath name)) as [e|] eqn:Hio.
    { left. erewrite (os_Rename_fails dbPath name bytes w1 e); [|exact Hfile|by left].
      eexists _, _. split; [reflexivity|]. split; [|reflexivity].
      eapply quiet_trans; apply quiet_record. }
    destruct (decide (filepath.Dir name ∈ dirs w)) as [Hdir|Hdir].
    + right. exists bytes. split; [exact Hfile|].
      rewrite (os_Rename_moves dbPath name bytes w1 Hio Hfile Hdir).
      subst w1. rewrite record_record. reflexivity.
    + left. erewrite (os_Rename_fails dbPath name bytes w1); [|exact Hfile|right; eauto].
      eexists _, _. split; [reflexivity|]. split; [|reflexivity].
      eapply quiet_trans; apply quiet_record.
Qed.

End QuarantineMore.

(** X11.  [shaFileID] always returns, and changes nothing but the trace.  When
    it returns an error the fingerprint is the empty string.  A file that
    was opened is closed again, also when reading it failed. *)
Theorem shaFileID_outcomes `{C : Collaborators} (dbPath : string) (w : World) :
  ∃ hash err w',
    shaFileID dbPath w = Returns ((hash, err), w') ∧
    quiet w w' ∧
    (is_Some err → hash = "") ∧
    (err = None → ∃ bytes, fs w !! dbPath = Some bytes ∧ hash = fingerprint bytes) ∧
    (trace w' = (trace w ++ [EvOsOpen dbPath])%list ∧ is_Some err ∨
     trace w' = (trace w ++ [EvOsOpen dbPath; EvCopy dbPath; EvFileClose dbPath])%list).
Proof.
  destruct (shaFileID_cases dbPath w) as [[e Hrun]|[(e & _ & Hrun)|(bytes & Hfile & Hrun)]];
    eexists _, _, _; (split; [exact Hrun|]); (split; [apply quiet_record|]).
  - split; [done|]. split; [discriminate|]. left. split; [reflexivity|by eexists].
  - split; [done|]. split; [discriminate|]. by right.
  - split; [by intros [? ?]|]. split; [by exists bytes|]. by right.
Qed.

(** X12.  [moveCorruptDB] either fails, returns the empty name and leaves every
    file where it was, or returns the quarantine name, where the bytes of
    the store now are, unchanged, with every other file untouched. *)
Theorem moveCorruptDB_outcomes `{C : Collaborators} (dbPath : string) (w : World) :
  ∃ name err w',
    moveCorruptDB dbPath w = Returns ((name, err), w') ∧
    heap w' = heap w ∧ dirs w' = dirs w ∧
    match err with
    | Some _ => name = "" ∧ fs w' = fs w
    | None =>
        ∃ bytes, fs w !! dbPath = Some bytes ∧
                 name = corruptDBPath dbPath bytes ∧
                 fs w' !! name = Some bytes ∧
                 (name ≠ dbPath → fs w' !! dbPath = None) ∧
                 ∀ p, p ≠ dbPath → p ≠ name → fs w' !! p = fs w !! p
    end.
Proof.
  destruct (moveCorruptDB_cases dbPath w) as [(e & w' & Hrun & Hq & _)|(bytes & Hfile & Hrun)].
  - exists "", (Some e), w'. destruct Hq as (Hh & Hf & Hd & _). by repeat split.
  - eexists _, None, _. split; [exact Hrun|]. cbn. repeat split.
    exists bytes. split; [exact Hfile|]. split; [reflexivity|]. split; [|split].
    + apply lookup_insert_eq.
    + intros Hne. rewrite lookup_insert_ne by exact Hne. apply lookup_delete_eq.
    + intros p Hp Hp'. rewrite lookup_insert_ne by done. by rewrite lookup_delete_ne.
Qed.

Section HandleMore.

Context `{C : Collaborators}.

(** Every run of [handleCorruptDB] on an open handle. *)
Lemma handleCorruptDB_cases (db : nat) (o : DB tx_data) (w : World) :
  heap w !! db = Some o → db_opened o = true →
  let closed := mkDB (db_path o) (db_readOnly o) false (db_data o) in
  ∃ h err w',
    handleCorruptDB db w = Returns ((h, err), w') ∧
    heap w' !! db = Some closed ∧
    (∀ q, is_Some (heap w !! q) → q ≠ db → heap w' !! q = heap w !! q) ∧
    dirs w' = dirs w ∧
    match h, err with
    | Some p, None => p ≠ db ∧ heap w !! p = None ∧ is_Some (heap w' !! p)
    | None, Some e =>
        (∃ e0, e = Errorf "Failed to close db: " e0 ∧ fs w' = fs w) ∨
        (∃ e0, e = Errorf "Failed to copy corrupted db: " e0 ∧ fs w' = fs w) ∨
        (∃ e0, e = Errorf "Open boltdb failed, " e0 ∧ is_Some (fs w !! db_path o))
    | _, _ => False
    end.
Proof.
  intros Hdb Hopen closed.
  rewrite (handleCorruptDB_prologue db o w Hdb Hopen). cbv zeta. fold closed.
  set (w_closed := with_heap (<[db := closed]> (heap w))
                     (record [EvIsReadOnly; EvPath; EvClose (db_path o)] w)).
  assert (Hheap : heap w_closed = <[db := closed]> (heap w)) by reflexivity.
  assert (Hfs : fs w_closed = fs w) by reflexivity.
  assert (Hdirs : dirs w_closed = dirs w) by reflexivity.
  destruct (io_fault w (EvClose (db_path o))) as [e|].
  { eexists None, (Some _), w_closed. split; [reflexivity|].
    rewrite Hheap. split; [apply lookup_insert_eq|].
    split; [intros q _ Hq; by rewrite lookup_insert_ne|].
    split; [exact Hdirs|]. left. by exists e. }
  unfold bind.
  destruct (moveCorruptDB_cases (db_path o) w_closed)
    as [(e & w' & -> & (Hh & Hf & Hd & _) & _)|(bytes & Hfile & ->)].
  { eexists None, (Some _), w'. split; [reflexivity|].
    rewrite Hh, Hheap. split; [apply lookup_insert_eq|].
    split; [intros q _ Hq; by rewrite lookup_insert_ne|].
    split; [by rewrite Hd|]. right. left. exists e. by rewrite Hf. }
  rewrite OpenDB_returns. cbv zeta.
  set (w_renamed := with_fs _ _).
  assert (Hheap' : heap w_renamed = <[db := closed]> (heap w)) by reflexivity.
  assert (Hdirs' : dirs w_renamed = dirs w) by reflexivity.
  assert (Hfs' : fs w_renamed
                 = <[corruptDBPath (db_path o) bytes := bytes]> (delete (db_path o) (fs w)))
    by reflexivity.
  destruct (bolt_Open (db_path o) perm_0600 timeout_500ms (db_readOnly o) (fs w_renamed))
    as [[o_new|err] fs'].
  - set (p := fresh (dom (heap w_renamed))).
    assert (Hfresh : p ∉ dom (heap w_renamed)) by apply is_fresh.
    rewrite Hheap' in Hfresh.
    assert (Hp : p ≠ db).
    { intros ->. apply Hfresh. apply elem_of_dom. rewrite lookup_insert_eq. by eexists. }
    eexists (Some p), None, _. split; [reflexivity|].
    cbn [heap with_heap with_fs record dirs]. rewrite Hheap'.
    split; [rewrite lookup_insert_ne by done; apply lookup_insert_eq|].
    split.
    { intros q [x Hq] Hne. rewrite lookup_insert_ne.
      - by rewrite lookup_insert_ne.
      - intros <-. apply Hfresh. apply elem_of_dom.
        rewrite lookup_insert_ne by done. by eexists. }
    split; [exact Hdirs'|].
    split; [exact Hp|]. split.
    + apply not_elem_of_dom. intros Hin. apply Hfresh.
      apply elem_of_dom. rewrite lookup_insert_ne by done. by apply elem_of_dom.
    + rewrite lookup_insert_eq. by eexists.
  - eexists None, (Some _), _. split; [reflexivity|].
    cbn [heap with_heap with_fs record dirs]. rewrite Hheap'.
    split; [apply lookup_insert_eq|].
    split; [intros q _ Hq; by rewrite lookup_insert_ne|].
    split; [exact Hdirs'|]. right. right. exists err. split; [reflexivity|].
    rewrite <- Hfs. by eexists.
Qed.

End HandleMore.

(** X13.  [handleCorruptDB] on an open handle always returns, with either a new
    handle or an error, never both and never neither.  The handle it was
    given is closed in every case and every other handle is as it was.  A
    returned handle is a new one, not the one given.  An error is one of
    three wrapped messages, and when the close or the move failed no file
    has changed. *)
Theorem handleCorruptDB_outcomes `{C : Collaborators} (db : nat) (o : DB tx_data) (w : World) :
  heap w !! db = Some o → db_opened o = true →
  ∃ h err w',
    handleCorruptDB db w = Returns ((h, err), w') ∧
    db_opened <$> heap w' !! db = Some false ∧
    (∀ q, is_Some (heap w !! q) → q ≠ db → heap w' !! q = heap w !! q) ∧
    match h, err with
    | Some p, None => p ≠ db ∧ heap w !! p = None ∧ is_Some (heap w' !! p)
    | None, Some e =>
        (∃ e0, e = Errorf "Failed to close db: " e0 ∧ fs w' = fs w) ∨
        (∃ e0, e = Errorf "Failed to copy corrupted db: " e0 ∧ fs w' = fs w) ∨
        (∃ e0, e = Errorf "Open boltdb failed, " e0 ∧ is_Some (fs w !! db_path o))
    | _, _ => False
    end.
Proof.
  intros Hdb Hopen.
  destruct (handleCorruptDB_cases db o w Hdb Hopen) as (h & err & w' & Hrun & Hc & Ho & _ & Hr).
  exists h, err, w'. split; [exact Hrun|]. split; [by rewrite Hc|]. by split.
Qed.

Lemma handleCorruptDB_outcomes_witness :
  let w0 := Toy.world Toy.bad_signature (list_byte_of_string "c") in
  ∃ h err w',
    handleCorruptDB (C := Toy.collaborators) 1 w0 = Returns ((h, err), w') ∧
    db_opened <$> heap w' !! 1%nat = Some false ∧
    (∀ q, is_Some (heap w0 !! q) → q ≠ 1%nat → heap w' !! q = heap w0 !! q) ∧
    match h, err with
    | Some p, None => p ≠ 1%nat ∧ heap w0 !! p = None ∧ is_Some (heap w' !! p)
    | None, Some e =>
        (∃ e0, e = Errorf "Failed to close db: " e0 ∧ fs w' = fs w0) ∨
        (∃ e0, e = Errorf "Failed to copy corrupted db: " e0 ∧ fs w' = fs w0) ∨
        (∃ e0, e = Errorf "Open boltdb failed, " e0 ∧ is_Some (fs w0 !! "/data/data.db"))
    | _, _ => False
    end.
Proof.
  intros w0.
  exact (handleCorruptDB_outcomes (C := Toy.collaborators) 1
           (mkDB "/data/data.db" false true Toy.bad_signature) w0 eq_refl eq_refl).
Defined.

Section FingerprintShape.

Import base64.

Lemma symbol_in_alphabet (i : N) :
  i < 64 → In (symbol i) (list_ascii_of_string encodeStd).
Proof.
  intros Hi.
  assert (H : existsb (Ascii.eqb (symbol i)) (list_ascii_of_string encodeStd) = true).
  { revert i Hi. apply (all_below_spec 64). vm_compute. reflexivity. }
  apply existsb_exists in H as (c & Hc & Heq). apply Ascii.eqb_eq in Heq. by subst c.
Qed.

Lemma encode8_shape (l : list N) :
  length l = 8%nat → Forall (λ x, x < 256) l →
  String.length (encode encodeStd l) = 11%nat ∧
  Forall (λ c, In c (list_ascii_of_string encodeStd))
    (list_ascii_of_string (encode encodeStd l)).
Proof.
  intros Hl Hb.
  destruct l as [|a1 [|a2 [|a3 [|a4 [|a5 [|a6 [|a7 [|a8 [|]]]]]]]]]; try discriminate.
  repeat match goal with H : Forall _ (_ :: _) |- _ => apply Forall_cons in H as [? H] end.
  cbn [encode].
  rewrite !char_symbol
    by (first [by apply sextet1_lt | by apply sextet2_lt
              | apply sextet3_lt; (assumption || lia) | by apply sextet4_lt]).
  split; [reflexivity|].
  cbv beta iota delta [String.append list_ascii_of_string].
  repeat (constructor;
          [apply symbol_in_alphabet;
           first [by apply sextet1_lt | by apply sextet2_lt
                 | apply sextet3_lt; (assumption || lia) | by apply sextet4_lt]|]).
  constructor.
Qed.

End FingerprintShape.

(** X14.  The fingerprint of any file has eleven characters, each from the
    standard alphabet of RFC 4648: the two digits [+] and [/] of that
    alphabet can occur in it, a dot or a padding sign cannot. *)
Theorem fingerprint_shape (bytes : list byte) :
  String.length (fingerprint bytes) = 11%nat ∧
  Forall (λ c, In c (list_ascii_of_string base64.encodeStd))
    (list_ascii_of_string (fingerprint bytes)) ∧
  ¬ In "."%char (list_ascii_of_string (fingerprint bytes)) ∧
  ¬ In "="%char (list_ascii_of_string (fingerprint bytes)).
Proof.
  assert (Hshape : String.length (fingerprint bytes) = 11%nat ∧
                   Forall (λ c, In c (list_ascii_of_string base64.encodeStd))
                     (list_ascii_of_string (fingerprint bytes))).
  { unfold fingerprint, base64.RawStdEncoding_EncodeToString. apply encode8_shape.
    - rewrite length_map, length_take, Sum_length. reflexivity.
    - apply Forall_forall. intros x Hx%list_elem_of_In.
      apply in_map_iff in Hx as [b [<- _]]. pose proof (Byte.to_N_bounded b). lia. }
  destruct Hshape as [Hlen Hall]. split; [exact Hlen|]. split; [exact Hall|].
  rewrite Forall_forall in Hall.
  split; intros Hin%list_elem_of_In%Hall; vm_compute in Hin; intuition discriminate.
Qed.

Section ResetMore.

Context `{C : Collaborators}.

Lemma length_append_s (a b : string) :
  String.length (a ++ b) = (String.length a + String.length b)%nat.
Proof.
  induction a as [|c a IH]; [reflexivity|].
  change (S (String.length (a ++ b)) = S (String.length a + String.length b)).
  by rewrite IH.
Qed.

(** The quarantine path is never the path of the store. *)
Lemma corruptDBPath_ne (dbPath : string) (bytes : list byte) :
  filepath.has_sep (fingerprint bytes) = false → corruptDBPath dbPath bytes ≠ dbPath.
Proof.
  intros Hfp Heq.
  destruct (corruptDBPath_shape dbPath bytes Hfp) as (_ & Hsplit & _).
  rewrite Heq in Hsplit. apply (f_equal snd) in Hsplit. cbn [snd] in Hsplit.
  apply (f_equal String.length) in Hsplit. rewrite !length_append_s in Hsplit.
  cbn in Hsplit. lia.
Qed.

(** With the file there, its directory there and no fault, the move is
    made. *)
Lemma moveCorruptDB_moves (dbPath : string) (bytes : list byte) (w : World) :
  fs w !! dbPath = Some bytes →
  filepath.Dir dbPath ∈ dirs w →
  filepath.has_sep (fingerprint bytes) = false →
  io_fault w (EvOsOpen dbPath) = None → io_fault w (EvCopy dbPath) = None →
  io_fault w (EvOsRename dbPath (corruptDBPath dbPath bytes)) = None →
  moveCorruptDB dbPath w
  = Returns ((corruptDBPath dbPath bytes, None),
             with_fs (<[corruptDBPath dbPath bytes := bytes]> (delete dbPath (fs w)))
               (record [EvOsOpen dbPath; EvCopy dbPath; EvFileClose dbPath;
                        EvOsRename dbPath (corruptDBPath dbPath bytes)] w)).
Proof.
  intros Hfile Hdir Hfp Hopen Hcopy Hrename.
  unfold moveCorruptDB, bind.
  rewrite (makeCorruptDBPath_returns dbPath bytes w Hfile Hopen Hcopy).
  destruct (corruptDBPath_shape dbPath bytes Hfp) as (_ & _ & Hsame).
  rewrite (os_Rename_moves dbPath (corruptDBPath dbPath bytes) bytes); try assumption.
  - unfold ret. by rewrite record_record.
  - cbn [dirs record]. by rewrite Hsame.
Qed.

Lemma ResetCorruptDB_quarantine_run
    (fuel db : nat) (pubkey : cipher_PubKey) (quit : chan)
    (w : World) (o o' : DB tx_data) (bc : Blockchain) (m : string) (n : nat)
    (bytes : list byte) :
  heap w !! db = Some o → db_opened o = true →
  dbutil_Exists (db_data o) BlocksBkt = true →
  NewBlockchain o pubkey = (inl bc, o') → db_opened o' = true →
  bc_WalkChain bc o' BlockchainVerifyTheadNum (verifyFunc bc) historydb_NewIndexesMap
    quit (polls w) = (Some (ErrMissingSignature m), n) →
  let dbPath := db_path o' in
  let name := corruptDBPath dbPath bytes in
  fs w !! dbPath = Some bytes →
  filepath.Dir dbPath ∈ dirs w →
  filepath.has_sep (fingerprint bytes) = false →
  io_fault w (EvClose dbPath) = None →
  io_fault w (EvOsOpen dbPath) = None → io_fault w (EvCopy dbPath) = None →
  io_fault w (EvOsRename dbPath name) = None →
  let closed := mkDB dbPath (db_readOnly o') false (db_data o') in
  let w_moved :=
    mkWorld (<[db := closed]> (heap w))
      (<[name := bytes]> (delete dbPath (fs w))) (dirs w) (io_fault w) n
      (trace w ++ [EvView "CheckDatabase"; EvNewBlockchain;
                   EvWalkChain BlockchainVerifyTheadNum;
                   EvIsReadOnly; EvPath; EvClose dbPath;
                   EvOsOpen dbPath; EvCopy dbPath; EvFileClose dbPath;
                   EvOsRename dbPath name]) in
  ResetCorruptDB fuel db pubkey quit w = OpenDB dbPath (db_readOnly o') w_moved.
Proof.
  intros Hdb Hopen Hbkt Hnew Hopen' Hwalk dbPath name Hfile Hdir Hfp
    Hclose Hosopen Hcopy Hrename closed w_moved.
  unfold ResetCorruptDB, bind.
  rewrite (CheckDatabase_classify fuel db pubkey quit w o o' bc _ n Hdb Hopen Hbkt Hnew Hwalk).
  assert (Hdb' : heap (after_walk db o' n w) !! db = Some o')
    by (cbn [heap after_walk]; apply lookup_insert_eq).
  rewrite (handleCorruptDB_prologue db o' _ Hdb' Hopen'). cbv zeta.
  cbn [io_fault after_walk]. fold dbPath. rewrite Hclose. unfold bind.
  rewrite (moveCorruptDB_moves dbPath bytes); try assumption.
  f_equal. unfold w_moved, with_fs, with_heap, record, after_walk.
  cbn [heap fs dirs io_fault polls trace]. rewrite insert_insert_eq.
  rewrite <- !app_assoc. reflexivity.
Qed.

(** Every run of [ResetCorruptDB] after a check that returns. *)
Lemma ResetCorruptDB_cases
    (fuel db : nat) (pubkey : cipher_PubKey) (quit : chan)
    (w w1 : World) (cerr : option error) (o1 : DB tx_data) :
  CheckDatabase fuel db pubkey quit w = Returns (cerr, w1) →
  heap w1 !! db = Some o1 → db_opened o1 = true →
  ∃ h err w',
    ResetCorruptDB fuel db pubkey quit w = Returns ((h, err), w') ∧
    match h, err with
    | Some p, None =>
        (p = db ∧ cerr = None ∧ w' = w1) ∨
        (p ≠ db ∧ (∃ e, cerr = Some (ErrCorruptDB e)) ∧ heap w1 !! p = None ∧
         db_opened <$> heap w' !! db = Some false ∧ is_Some (heap w' !! p))
    | None, Some e =>
        (cerr = Some e ∧ w' = w1 ∧ ∀ e0, e ≠ ErrCorruptDB e0) ∨
        ((∃ e0, cerr = Some (ErrCorruptDB e0)) ∧
         db_opened <$> heap w' !! db = Some false ∧
         ∃ prefix e0, e = Errorf prefix e0)
    | _, _ => False
    end.
Proof.
  intros Hcheck Hdb Hopen. unfold ResetCorruptDB, bind. rewrite Hcheck.
  destruct cerr as [e|].
  2:{ eexists _, _, _. split; [reflexivity|]. left. done. }
  destruct e as [msg|msg|msg|e0|op path msg|op old new msg| |];
    try (eexists _, _, _; split; [reflexivity|]; left; by repeat split).
  destruct (handleCorruptDB_cases db o1 w1 Hdb Hopen)
    as (h & err & w' & Hrun & Hclosed & _ & _ & Hres).
  exists h, err, w'. split; [exact Hrun|].
  destruct h as [p|], err as [e|]; try contradiction.
  - destruct Hres as (Hp & Hnew & Hthere). right.
    split; [exact Hp|]. split; [by eexists|]. split; [exact Hnew|].
    split; [by rewrite Hclosed|exact Hthere].
  - right. split; [by eexists|]. split; [by rewrite Hclosed|].
    destruct Hres as [(x & -> & _)|[(x & -> & _)|(x & -> & _)]]; by eexists _, _.
Qed.

End ResetMore.

(** X15.  A store whose walk finds a block without signature, with its file
    and the directory of its file there, no fault, and a fingerprint
    without separator: [ResetCorruptDB] closes the handle, moves the file
    to the quarantine name in the same directory, and returns what
    [OpenDB] then returns for the path of the store.  At that time the
    bytes are under the quarantine name, which is not the path of the
    store, no file is under the path of the store, and every other file is
    as it was. *)
Theorem ResetCorruptDB_quarantines `{C : Collaborators}
    (fuel db : nat) (pubkey : cipher_PubKey) (quit : chan)
    (w : World) (o o' : DB tx_data) (bc : Blockchain) (m : string) (n : nat)
    (bytes : list byte) :
  heap w !! db = Some o → db_opened o = true →
  dbutil_Exists (db_data o) BlocksBkt = true →
  NewBlockchain o pubkey = (inl bc, o') → db_opened o' = true →
  bc_WalkChain bc o' BlockchainVerifyTheadNum (verifyFunc bc) historydb_NewIndexesMap
    quit (polls w) = (Some (ErrMissingSignature m), n) →
  let dbPath := db_path o' in
  let name := corruptDBPath dbPath bytes in
  fs w !! dbPath = Some bytes →
  filepath.Dir dbPath ∈ dirs w →
  filepath.has_sep (fingerprint bytes) = false →
  io_fault w (EvClose dbPath) = None →
  io_fault w (EvOsOpen dbPath) = None → io_fault w (EvCopy dbPath) = None →
  io_fault w (EvOsRename dbPath name) = None →
  let closed := mkDB dbPath (db_readOnly o') false (db_data o') in
  let w_moved :=
    mkWorld (<[db := closed]> (heap w))
      (<[name := bytes]> (delete dbPath (fs w))) (dirs w) (io_fault w) n
      (trace w ++ [EvView "CheckDatabase"; EvNewBlockchain;
                   EvWalkChain BlockchainVerifyTheadNum;
                   EvIsReadOnly; EvPath; EvClose dbPath;
                   EvOsOpen dbPath; EvCopy dbPath; EvFileClose dbPath;
                   EvOsRename dbPath name]) in
  ResetCorruptDB fuel db pubkey quit w = OpenDB dbPath (db_readOnly o') w_moved ∧
  name ≠ dbPath ∧
  filepath.Dir name = filepath.Dir dbPath ∧
  fs w_moved !! name = Some bytes ∧
  fs w_moved !! dbPath = None ∧
  ∀ p, p ≠ dbPath → p ≠ name → fs w_moved !! p = fs w !! p.
Proof.
  intros Hdb Hopen Hbkt Hnew Hopen' Hwalk dbPath name Hfile Hdir Hfp
    Hclose Hosopen Hcopy Hrename closed w_moved.
  pose proof (corruptDBPath_ne dbPath bytes Hfp) as Hne.
  split.
  { by apply (ResetCorruptDB_quarantine_run fuel db pubkey quit w o o' bc m n bytes). }
  split; [exact Hne|].
  split; [by destruct (corruptDBPath_shape dbPath bytes Hfp) as (_ & _ & ?)|].
  cbn [fs w_moved]. split; [apply lookup_insert_eq|]. split.
  - rewrite lookup_insert_ne by exact Hne. apply lookup_delete_eq.
  - intros p Hp Hp'. rewrite lookup_insert_ne by done. by rewrite lookup_delete_ne.
Qed.

Lemma ResetCorruptDB_quarantines_witness :
  observe (ResetCorruptDB (C := Toy.collaborators) 10 1 () Toy.never
             (Toy.world Toy.bad_signature (list_byte_of_string "c")))
  = Some ((Some 2%nat, None),
          [EvView "CheckDatabase"; EvNewBlockchain; EvWalkChain 4;
           EvIsReadOnly; EvPath; EvClose "/data/data.db";
           EvOsOpen "/data/data.db"; EvCopy "/data/data.db";
           EvFileClose "/data/data.db";
           EvOsRename "/data/data.db" "/data/data.db.corrupt.hKUWhBunels";
           EvBoltOpen "/data/data.db" false]).
Proof.
  pose proof (ResetCorruptDB_quarantines (C := Toy.collaborators) 10 1 () Toy.never
                (Toy.world Toy.bad_signature (list_byte_of_string "c"))
                (mkDB "/data/data.db" false true Toy.bad_signature)
                (mkDB "/data/data.db" false true Toy.bad_signature)
                () "signature not found" 2 (list_byte_of_string "c")
                eq_refl eq_refl eq_refl eq_refl eq_refl eq_refl eq_refl
                ltac:(vm_compute; set_solver) ltac:(vm_compute; reflexivity)
                eq_refl eq_refl eq_refl eq_refl) as (Hrun & _).
  rewrite Hrun. vm_compute. reflexivity.
Defined.

(** X16.  [ResetCorruptDB] after a check that returns, on a handle the check
    left open: it returns a handle or an error, never both and never
    neither.  The handle is the one given exactly when the check found no
    fault, and then nothing more was done.  A new handle or a wrapped
    error comes only from a check that reported a corrupt store, and the
    handle given is then closed.  Any other error of the check comes back
    as it is. *)
Theorem ResetCorruptDB_outcomes `{C : Collaborators}
    (fuel db : nat) (pubkey : cipher_PubKey) (quit : chan)
    (w w1 : World) (cerr : option error) (o1 : DB tx_data) :
  CheckDatabase fuel db pubkey quit w = Returns (cerr, w1) →
  heap w1 !! db = Some o1 → db_opened o1 = true →
  ∃ h err w',
    ResetCorruptDB fuel db pubkey quit w = Returns ((h, err), w') ∧
    match h, err with
    | Some p, None =>
        (p = db ∧ cerr = None ∧ w' = w1) ∨
        (p ≠ db ∧ (∃ e, cerr = Some (ErrCorruptDB e)) ∧ heap w1 !! p = None ∧
         db_opened <$> heap w' !! db = Some false ∧ is_Some (heap w' !! p))
    | None, Some e =>
        (cerr = Some e ∧ w' = w1 ∧ ∀ e0, e ≠ ErrCorruptDB e0) ∨
        ((∃ e0, cerr = Some (ErrCorruptDB e0)) ∧
         db_opened <$> heap w' !! db = Some false ∧
         ∃ prefix e0, e = Errorf prefix e0)
    | _, _ => False
    end.
Proof. apply ResetCorruptDB_cases. Qed.

Lemma ResetCorruptDB_outcomes_witness :
  let w0 := Toy.world Toy.bad_signature (list_byte_of_string "c") in
  let o := mkDB "/data/data.db" false true Toy.bad_signature in
  let cerr := Some (ErrCorruptDB (ErrMissingSignature "signature not found")) in
  let w1 := after_walk (C := Toy.collaborators) 1 o 2 w0 in
  ∃ h err w',
    ResetCorruptDB (C := Toy.collaborators) 10 1 () Toy.never w0 = Returns ((h, err), w') ∧
    match h, err with
    | Some p, None =>
        (p = 1%nat ∧ cerr = None ∧ w' = w1) ∨
        (p ≠ 1%nat ∧ (∃ e, cerr = Some (ErrCorruptDB e)) ∧ heap w1 !! p = None ∧
         db_opened <$> heap w' !! 1%nat = Some false ∧ is_Some (heap w' !! p))
    | None, Some e =>
        (cerr = Some e ∧ w' = w1 ∧ ∀ e0, e ≠ ErrCorruptDB e0) ∨
        ((∃ e0, cerr = Some (ErrCorruptDB e0)) ∧
         db_opened <$> heap w' !! 1%nat = Some false ∧
         ∃ prefix e0, e = Errorf prefix e0)
    | _, _ => False
    end.
Proof.
  intros w0 o cerr w1.
  apply (ResetCorruptDB_outcomes (C := Toy.collaborators) 10 1 () Toy.never w0 w1 cerr o);
    reflexivity.
Defined.

(** ** The steps of the rebuild, for every head *)

(** X17.  The rebuild runs in one write transaction.  It erases the index,
    reads the head and fails (rolling back) when there is no head block;
    otherwise it goes through the sequence numbers from 0 on in
    increasing order, polls the cancellation channel before each step,
    and fetches the block and feeds it to the index builder.  After [n]
    steps that went well, a poll that finds the channel signaled makes
    the closure return nil, so the transaction commits the index as
    rebuilt so far, with the pages of the file, and the rebuild returns
    nil; so does the end of the loop after the step for the head.  This
    holds for every head; only the steps made stay below 2^64.  For a
    head below 2^64 - 1 the rebuild is the same computation as the
    rebuild over the list 0, ..., head. *)
Theorem rebuildCorruptDB_steps `{C : Collaborators}
    (bc : Blockchain) (quit : chan) (fuel db : nat) (o : DB tx_data) (w : World)
    (tx1 : tx_data) (headSeq : uint64) (ok : bool) :
  heap w !! db = Some o → db_opened o = true → db_readOnly o = false →
  history_Erase (db_data o) = (tx1, None) →
  bc_HeadSeq bc tx1 = (headSeq, ok, None) →
  let prologue := [EvUpdate "Rebuild history db"; EvErase; EvHeadSeq] in
  (headSeq < uint64_modulus - 1 → (N.to_nat headSeq + 1 < fuel)%nat →
   rebuildCorruptDB fuel db bc quit w = rebuild_spec db bc quit w) ∧
  (ok = false →
     rebuildCorruptDB fuel db bc quit w
     = Returns (Some (errorString "head block does not exist"),
                record (prologue ++ [EvRollback]) w)) ∧
  (ok = true → ∀ (n : nat) (txn : tx_data) (evs : list event),
     N.of_nat n ≤ headSeq + 1 → N.of_nat n < uint64_modulus → (n < fuel)%nat →
     replay bc (polls w) (uint_range 0 n) tx1 = Some (txn, evs) →
     (∀ j, (j < n)%nat → quit (polls w + j)%nat = false) →
     (N.of_nat n ≤ headSeq → quit (polls w + n)%nat = true) →
     io_fault w EvCommit = None →
     let stop :=
       if decide (N.of_nat n ≤ headSeq) then [EvPollQuit (polls w + n)] else [] in
     rebuildCorruptDB fuel db bc quit w
     = Returns (None,
                with_heap (<[db := mkDB (db_path o) (db_readOnly o) (db_opened o) txn]> (heap w))
                  (with_fs (alter (bolt_pages txn) (db_path o) (fs w))
                     (polled (n + length stop)
                        (record (prologue ++ evs ++ stop ++ [EvCommit]) w))))).
Proof.
  intros Hdb Hopen Hrw Herase Hhead prologue. split; [|split].
  - intros Hbound Hfuel. by eapply rebuildCorruptDB_refines.
  - intros ->. by eapply rebuildCorruptDB_no_head.
  - intros -> n txn evs Hn Hwrap Hfuel Hrep Hquiet Hstop Hio.
    by eapply rebuildCorruptDB_commits.
Qed.

Lemma rebuildCorruptDB_steps_witness :
  let t := Sparse.mkStore (uint64_modulus - 1) [] [] [9] in
  let run :=
    rebuildCorruptDB (C := Sparse.collaborators) 5 1 () (Toy.closed_from 1) (Sparse.world t) in
  fst <$> observe run = Some None ∧ Sparse.index <$> stored 1 run = Some [0].
Proof.
  intros t run.
  pose proof (rebuildCorruptDB_steps (C := Sparse.collaborators) () (Toy.closed_from 1)
                5 1 (mkDB "/data/data.db" false true t) (Sparse.world t)
                (Sparse.mkStore (uint64_modulus - 1) [] [] []) (uint64_modulus - 1) true
                eq_refl eq_refl eq_refl eq_refl eq_refl)
    as (_ & _ & Hsteps).
  specialize (Hsteps eq_refl 1%nat (Sparse.mkStore (uint64_modulus - 1) [] [] [0])
                [EvPollQuit 0; EvGetSignedBlockBySeq 0;
                 EvParseBlock (C := Sparse.collaborators) 0]
                ltac:(vm_compute; discriminate) ltac:(vm_compute; reflexivity)
                ltac:(lia) eq_refl).
  unfold run. rewrite Hsteps.
  - split; reflexivity.
  - intros j Hj. assert (j = 0%nat) as -> by lia. reflexivity.
  - reflexivity.
  - reflexivity.
Defined.
